(** * Timed-lyrics playground: markup parser and timeline engine

    A shallow embedding of the [Timeline] component of the documentation
    site (functions [parseTime], [parseTTML], the [timeMarkers] memo and the
    pointer handlers [handleTimelineClick], [handleWheel],
    [handleMouseDown]), together with the properties its specification
    states about them.

    Modelling conventions.
    - JavaScript numbers have two models.  [JSNumber.number] is a
      rational, one of the two infinities, or [NaN], with exact arithmetic
      and results in reduced form; it carries the parser of the markup and
      the properties of order, of whole numbers and of the discrete state.
      [Double] is IEEE-754 binary64 with round-to-nearest-even, signed
      zeros, infinities and NaN; [parseTime], the click, the wheel and
      the time markers are embedded over it too, and what is stated of
      the values they compute is stated there.
    - A JavaScript string is a [string]; a character stands for one code
      unit below 256.
    - A DOM tree is an inductive [Node]; the platform's XML parser is a
      parameter of [parseTTML].
    - React state is an explicit record, and every handler is a function
      from the state before the event to the state after it.

    The second half of the development covers the rest of the component
    and its caller: [hasOnlyBackgroundVocals], the zoom buttons, the drag
    handlers with the animation frame and the timeout they schedule, the
    labels of the time markers, and, from the playground page, the parsed
    view of [formatBody] and the parameters of the address.
    - A session is the view state with what is scheduled: the offset the
      pending animation frame will set, and the timeouts of
      [handleMouseUp].  Every event is handled after the render of the
      event before it.
    - A [URLSearchParams] object is the list of its pairs; writing it to
      the address and parsing it back is left to the platform.
    - [formatTime] is left out: its milliseconds come from
      [(totalSeconds % 1) * 1000], whose value depends on the rounding of
      doubles.  [getSpeakerColor] is left out as well: its table is an
      object, and a lookup also finds the keys of [Object.prototype]. *)

From Stdlib Require Import ZArith QArith Qround Qreduction Qpower Qabs Bool List Sorted Ascii String Floats Lia Lqa.
From stdpp Require Import gmap strings.
Import ListNotations.

Set Warnings "-register-all,-inexact-float".

Local Open Scope Z_scope.

(** ** JavaScript numbers *)

Module JSNumber.

Inductive number : Type :=
| NaN
| PosInf
| NegInf
| Fin (q : Q).

(** A finite number, in reduced form. *)
Definition fin (q : Q) : number := Fin (Qred q).

Definition of_Z (z : Z) : number := Fin (inject_Z z).

Definition isNaN (a : number) : bool :=
  match a with NaN => true | _ => false end.

(** [a + b] *)
Definition add (a b : number) : number :=
  match a, b with
  | NaN, _ | _, NaN => NaN
  | PosInf, NegInf | NegInf, PosInf => NaN
  | PosInf, _ | _, PosInf => PosInf
  | NegInf, _ | _, NegInf => NegInf
  | Fin x, Fin y => fin (x + y)
  end.

(** [a - b] *)
Definition sub (a b : number) : number :=
  match a, b with
  | NaN, _ | _, NaN => NaN
  | PosInf, PosInf | NegInf, NegInf => NaN
  | PosInf, _ | _, NegInf => PosInf
  | NegInf, _ | _, PosInf => NegInf
  | Fin x, Fin y => fin (x - y)
  end.

(** The infinity with the sign of [c] ([Eq] stands for a zero factor). *)
Definition signedInf (c : comparison) (positive : bool) : number :=
  match c with
  | Eq => NaN
  | Gt => if positive then PosInf else NegInf
  | Lt => if positive then NegInf else PosInf
  end.

(** [a * b] *)
Definition mul (a b : number) : number :=
  match a, b with
  | NaN, _ | _, NaN => NaN
  | PosInf, PosInf | NegInf, NegInf => PosInf
  | PosInf, NegInf | NegInf, PosInf => NegInf
  | PosInf, Fin y => signedInf (y ?= 0)%Q true
  | NegInf, Fin y => signedInf (y ?= 0)%Q false
  | Fin x, PosInf => signedInf (x ?= 0)%Q true
  | Fin x, NegInf => signedInf (x ?= 0)%Q false
  | Fin x, Fin y => fin (x * y)
  end.

(** [a / b]; a zero divisor is the positive zero. *)
Definition div (a b : number) : number :=
  match a, b with
  | NaN, _ | _, NaN => NaN
  | (PosInf | NegInf), (PosInf | NegInf) => NaN
  | PosInf, Fin y => if Qle_bool 0 y then PosInf else NegInf
  | NegInf, Fin y => if Qle_bool 0 y then NegInf else PosInf
  | Fin _, (PosInf | NegInf) => Fin 0
  | Fin x, Fin y =>
      if Qeq_bool y 0 then signedInf (x ?= 0)%Q true else fin (x / y)
  end.

(** [a < b] *)
Definition lt (a b : number) : bool :=
  match a, b with
  | NaN, _ | _, NaN => false
  | _, NegInf => false
  | NegInf, _ => true
  | PosInf, _ => false
  | _, PosInf => true
  | Fin x, Fin y => negb (Qle_bool y x)
  end.

(** [a <= b] *)
Definition le (a b : number) : bool :=
  match a, b with
  | NaN, _ | _, NaN => false
  | NegInf, _ => true
  | _, PosInf => true
  | _, NegInf => false
  | PosInf, _ => false
  | Fin x, Fin y => Qle_bool x y
  end.

(** [a > b] and [a >= b] *)
Definition gt (a b : number) : bool := lt b a.
Definition ge (a b : number) : bool := le b a.

(** [a === b] *)
Definition strictEq (a b : number) : bool :=
  match a, b with
  | PosInf, PosInf | NegInf, NegInf => true
  | Fin x, Fin y => Qeq_bool x y
  | _, _ => false
  end.

(** [Math.max(a, b)] and [Math.min(a, b)] *)
Definition max (a b : number) : number :=
  match a, b with
  | NaN, _ | _, NaN => NaN
  | _, _ => if lt a b then b else a
  end.

Definition min (a b : number) : number :=
  match a, b with
  | NaN, _ | _, NaN => NaN
  | _, _ => if lt b a then b else a
  end.

(** [Math.max(...xs)] *)
Definition maxOf (xs : list number) : number := fold_left max xs NegInf.

(** [Math.floor] and [Math.round] (ties go up) *)
Definition floor (a : number) : number :=
  match a with
  | Fin x => of_Z (Qfloor x)
  | _ => a
  end.

Definition round (a : number) : number :=
  match a with
  | Fin x => of_Z (Qfloor (x + (1 # 2)))
  | _ => a
  end.

End JSNumber.

Import JSNumber.

Declare Scope js_scope.
Delimit Scope js_scope with js.
Bind Scope js_scope with number.
Notation "a + b" := (add a b) : js_scope.
Notation "a - b" := (sub a b) : js_scope.
Notation "a * b" := (mul a b) : js_scope.
Notation "a / b" := (div a b) : js_scope.
Notation "a <? b" := (lt a b) : js_scope.
Notation "a <=? b" := (le a b) : js_scope.
Notation "a >? b" := (gt a b) : js_scope.
Notation "a >=? b" := (ge a b) : js_scope.
Notation "a === b" := (strictEq a b) (at level 70, no associativity) : js_scope.

(** Numeric literals of the source. *)
Definition num (z : Z) : number := of_Z z.
Coercion num : Z >-> number.

(** ** JavaScript strings *)

Module JSString.

(** White space and line terminators among the code units below 256. *)
Definition isWhiteSpace (c : ascii) : bool :=
  let n := N_of_ascii c in
  ((9 <=? n) && (n <=? 13) || (n =? 32) || (n =? 160))%N.

(** [s.trimStart()], [s.trimEnd()], [s.trim()] *)
Fixpoint trimStart (s : string) : string :=
  match s with
  | EmptyString => EmptyString
  | String c r => if isWhiteSpace c then trimStart r else s
  end.

Fixpoint trimEnd (s : string) : string :=
  match s with
  | EmptyString => EmptyString
  | String c r =>
      match trimEnd r with
      | EmptyString => if isWhiteSpace c then EmptyString else String c EmptyString
      | r' => String c r'
      end
  end.

Definition trim (s : string) : string := trimEnd (trimStart s).

(** [s.split(sep)] for a separator of one character. *)
Fixpoint split (sep : ascii) (s : string) : list string :=
  match s with
  | EmptyString => [EmptyString]
  | String c r =>
      if Ascii.eqb c sep then EmptyString :: split sep r
      else match split sep r with
           | h :: t => String c h :: t
           | [] => [String c EmptyString]
           end
  end.

(** [parts[i]] converted to a string, as the numeric parsers do with their
    argument: an absent element reads as the text of [undefined]. *)
Definition item (parts : list string) (i : nat) : string :=
  nth i parts "undefined"%string.

(** Whether [s] starts with [p]; the remainder when it does. *)
Fixpoint stripPrefix (p s : string) : option string :=
  match p, s with
  | EmptyString, _ => Some s
  | String a p', String b s' => if Ascii.eqb a b then stripPrefix p' s' else None
  | String _ _, EmptyString => None
  end.

(** The value of a digit in the given radix. *)
Definition digitValue (radix : Z) (c : ascii) : option Z :=
  let n := Z.of_N (N_of_ascii c) in
  let v :=
    if (48 <=? n) && (n <=? 57) then Some (n - 48)
    else if (97 <=? n) && (n <=? 122) then Some (n - 87)
    else if (65 <=? n) && (n <=? 90) then Some (n - 55)
    else None in
  match v with
  | Some d => if d <? radix then Some d else None
  | None => None
  end.

(** The longest prefix of digits: their values, and what follows. *)
Fixpoint digits (radix : Z) (s : string) : list Z * string :=
  match s with
  | EmptyString => ([], s)
  | String c r =>
      match digitValue radix c with
      | Some d => let '(ds, rest) := digits radix r in (d :: ds, rest)
      | None => ([], s)
      end
  end.

Definition digitsValue (radix : Z) (ds : list Z) : Z :=
  fold_left (fun acc d => acc * radix + d) ds 0.

(** An optional sign: [true] for a minus. *)
Definition sign (s : string) : bool * string :=
  match s with
  | String "-"%char r => (true, r)
  | String "+"%char r => (false, r)
  | _ => (false, s)
  end.

(** [parseInt(s)] with no radix argument. *)
Definition parseInt (s : string) : number :=
  let '(negative, s1) := sign (trimStart s) in
  let '(radix, s2) :=
    match stripPrefix "0x" s1, stripPrefix "0X" s1 with
    | Some r, _ | None, Some r => (16, r)
    | None, None => (10, s1)
    end in
  match digits radix s2 with
  | ([], _) => NaN
  | (ds, _) =>
      let v := digitsValue radix ds in
      of_Z (if negative then - v else v)
  end.

(** The exponent part of a decimal literal; zero when there is none. *)
Definition exponentPart (s : string) : Z :=
  match s with
  | String c r =>
      if Ascii.eqb c "e" || Ascii.eqb c "E" then
        let '(negative, r') := sign r in
        match digits 10 r' with
        | ([], _) => 0
        | (ds, _) => let v := digitsValue 10 ds in if negative then - v else v
        end
      else 0
  | EmptyString => 0
  end.

(** [parseFloat(s)]: the value of the longest prefix that is a decimal
    literal. *)
Definition parseFloat (s : string) : number :=
  let '(negative, s1) := sign (trimStart s) in
  match stripPrefix "Infinity" s1 with
  | Some _ => if negative then NegInf else PosInf
  | None =>
      let '(ip, s2) := digits 10 s1 in
      let '(fp, s3) :=
        match s2 with
        | String "."%char r =>
            match ip, digits 10 r with
            | [], ([], _) => ([], s2)
            | _, (ds, rest) => (ds, rest)
            end
        | _ => ([], s2)
        end in
      match ip, fp with
      | [], [] => NaN
      | _, _ =>
          let mantissa := digitsValue 10 (ip ++ fp) in
          let e := exponentPart s3 - Z.of_nat (List.length fp) in
          let v := (inject_Z mantissa * Qpower 10 e)%Q in
          fin (if negative then - v else v)
      end
  end.

End JSString.

Import JSString.

(** ** [parseTime] *)

Definition parseTime (timeStr : string) : number :=
  if String.eqb timeStr EmptyString then 0
  else
    let parts := split ":" timeStr in
    let seconds :=
      if (List.length parts =? 3)%nat then
        (parseInt (item parts 0) * 3600 + parseInt (item parts 1) * 60
         + parseFloat (item parts 2))%js
      else if (List.length parts =? 2)%nat then
        (parseInt (item parts 0) * 60 + parseFloat (item parts 1))%js
      else parseFloat (item parts 0) in
    round (seconds * 1000).

(** ** The document tree *)

Module Dom.

(** A node of the tree the XML parser returns.  An element carries its
    local name, its attributes under their qualified names, and its
    children in document order. *)
Inductive Node : Type :=
| Element (localName : string) (attributes : list (string * string))
          (childNodes : list Node)
| Text (data : string)
| CDATASection (data : string)
| Comment (data : string)
| ProcessingInstruction (target data : string).

Record Document : Type := { documentChildren : list Node }.

Definition children (n : Node) : list Node :=
  match n with Element _ _ cs => cs | _ => [] end.

Definition hasName (name : string) (n : Node) : bool :=
  match n with Element l _ _ => String.eqb l name | _ => false end.

(** [el.getAttribute(name)]: [None] stands for [null]. *)
Fixpoint lookupAttribute (name : string) (attrs : list (string * string))
  : option string :=
  match attrs with
  | [] => None
  | (k, v) :: rest => if String.eqb k name then Some v else lookupAttribute name rest
  end.

Definition getAttribute (n : Node) (name : string) : option string :=
  match n with
  | Element _ attrs _ => lookupAttribute name attrs
  | _ => None
  end.

(** [el.textContent] of an element: the data of the text descendants, in
    document order; comments and processing instructions do not count. *)
Fixpoint textContent (n : Node) : string :=
  match n with
  | Element _ _ cs => fold_right (fun c acc => textContent c +:+ acc) EmptyString cs
  | Text d | CDATASection d => d
  | Comment _ | ProcessingInstruction _ _ => EmptyString
  end.

(** A node found below a context node, with the elements strictly between
    the two: [parentElement] first, then its parent, and so on. *)
Record Located : Type := { ancestors : list Node; node : Node }.

(** A node and everything below it, in document order. *)
Fixpoint subtree (above : list Node) (n : Node) : list Located :=
  {| ancestors := above; node := n |} ::
  match n with
  | Element _ _ cs => flat_map (subtree (n :: above)) cs
  | _ => []
  end.

(** Everything strictly below a node, and everything in a document. *)
Definition descendants (context : Node) : list Located :=
  flat_map (subtree []) (children context).

Definition documentNodes (doc : Document) : list Located :=
  flat_map (subtree []) (documentChildren doc).

(** The three selectors of the source. *)
Inductive Selector : Type :=
| SelP                     (* "p" *)
| SelSpanBegin             (* "span[begin]" *)
| SelTransliterationText.  (* "transliteration text" *)

Definition hasAttribute (n : Node) (name : string) : bool :=
  match getAttribute n name with Some _ => true | None => false end.

Definition selects (sel : Selector) (l : Located) : bool :=
  match sel with
  | SelP => hasName "p" (node l)
  | SelSpanBegin => hasName "span" (node l) && hasAttribute (node l) "begin"
  | SelTransliterationText =>
      hasName "text" (node l) && existsb (hasName "transliteration") (ancestors l)
  end.

(** [doc.querySelectorAll(sel)] and [el.querySelectorAll(sel)] *)
Definition documentQuerySelectorAll (doc : Document) (sel : Selector)
  : list Located :=
  List.filter (selects sel) (documentNodes doc).

Definition querySelectorAll (context : Node) (sel : Selector) : list Located :=
  List.filter (selects sel) (descendants context).

End Dom.

Import Dom.

(** ** The parsed model *)

Module Word.
Record t : Type := {
  begin : number;
  end_ : number;
  text : string;
  isBackground : option bool
}.
End Word.

Module Translit.
Record t : Type := {
  text : string;
  words : list Word.t
}.
End Translit.

Module Line.
Record t : Type := {
  begin : number;
  end_ : number;
  text : string;
  leadText : string;
  bgText : string;
  words : list Word.t;
  agent : option string;
  key : option string;
  transliteration : option Translit.t
}.
End Line.

(** ** [parseTTML] *)

(** The outcome of a call that may throw. *)
Inductive Completion (A : Type) : Type :=
| Normal (a : A)
| Throw.
Arguments Normal {A} a.
Arguments Throw {A}.

(** [try { body } catch { handler }] *)
Definition tryCatch {A : Type} (body : Completion A) (handler : A) : A :=
  match body with
  | Normal a => a
  | Throw => handler
  end.

(** The fallbacks [v || (empty string)] and [v || undefined] on an
    attribute value. *)
Definition orEmpty (v : option string) : string :=
  match v with Some s => s | None => EmptyString end.

Definition orUndefined (v : option string) : option string :=
  match v with
  | Some s => if String.eqb s EmptyString then None else Some s
  | None => None
  end.

Definition hasBackgroundRole (n : Node) : bool :=
  match getAttribute n "ttm:role" with
  | Some r => String.eqb r "x-bg"
  | None => false
  end.

(** The word of a timed span inside a transliteration. *)
Definition translitWord (span : Located) : Word.t :=
  {| Word.begin := parseTime (orEmpty (getAttribute (node span) "begin"));
     Word.end_ := parseTime (orEmpty (getAttribute (node span) "end"));
     Word.text := textContent (node span);
     Word.isBackground := None |}.

(** One step of the first [forEach]: a container with a usable [for]
    enters the table, replacing an earlier entry under that key. *)
Definition collectTransliteration (m : gmap string Translit.t) (textEl : Located)
  : gmap string Translit.t :=
  match orUndefined (getAttribute (node textEl) "for") with
  | None => m
  | Some forKey =>
      <[forKey :=
          {| Translit.text := textContent (node textEl);
             Translit.words := map translitWord (querySelectorAll (node textEl) SelSpanBegin) |}]> m
  end.

Definition transliterationMap (doc : Document) : gmap string Translit.t :=
  fold_left collectTransliteration
            (documentQuerySelectorAll doc SelTransliterationText) ∅.

(** The two accumulators of [collectText]. *)
Record TextAcc : Type := { accLead : string; accBg : string }.

Fixpoint collectText (element : Node) (inBackground : bool) (acc : TextAcc)
  : TextAcc :=
  match element with
  | Element _ _ cs =>
      fold_left
        (fun acc n =>
           match n with
           | Text d =>
               if inBackground
               then {| accLead := accLead acc; accBg := accBg acc +:+ d |}
               else {| accLead := accLead acc +:+ d; accBg := accBg acc |}
           | Element _ _ _ =>
               collectText n (inBackground || hasBackgroundRole n) acc
           | _ => acc
           end)
        cs acc
  | _ => acc
  end.

(** The upward walk from [span.parentElement] to the paragraph. *)
Fixpoint underBackground (parents : list Node) : bool :=
  match parents with
  | [] => false
  | parent :: above =>
      if hasBackgroundRole parent then true else underBackground above
  end.

(** The word of a timed span inside a paragraph. *)
Definition lineWord (span : Located) : Word.t :=
  let isBackground := underBackground (ancestors span) in
  {| Word.begin := parseTime (orEmpty (getAttribute (node span) "begin"));
     Word.end_ := parseTime (orEmpty (getAttribute (node span) "end"));
     Word.text := textContent (node span);
     Word.isBackground := if isBackground then Some true else None |}.

(** The body of the second [forEach]: the line of one paragraph. *)
Definition parseLine (table : gmap string Translit.t) (p : Node) : Line.t :=
  let agent := orUndefined (getAttribute p "ttm:agent") in
  let key := orUndefined (getAttribute p "itunes:key") in
  let collected := collectText p false {| accLead := EmptyString; accBg := EmptyString |} in
  let words := map lineWord (querySelectorAll p SelSpanBegin) in
  let transliteration :=
    match key with
    | Some k => table !! k
    | None => None
    end in
  {| Line.begin := parseTime (orEmpty (getAttribute p "begin"));
     Line.end_ := parseTime (orEmpty (getAttribute p "end"));
     Line.text := textContent p;
     Line.leadText := trim (accLead collected);
     Line.bgText := trim (accBg collected);
     Line.words := words;
     Line.agent := agent;
     Line.key := key;
     Line.transliteration := transliteration |}.

Definition paragraphs (doc : Document) : list Node :=
  map node (documentQuerySelectorAll doc SelP).

Definition parseDocument (doc : Document) : list Line.t :=
  map (parseLine (transliterationMap doc)) (paragraphs doc).

Section Parser.

(** [new DOMParser().parseFromString(ttml, "text/xml")], a service of the
    platform. *)
Variable parseFromString : string -> Completion Document.

Definition parseTTMLBody (ttml : string) : Completion (list Line.t) :=
  match parseFromString ttml with
  | Normal doc => Normal (parseDocument doc)
  | Throw => Throw
  end.

Definition parseTTML (ttml : string) : list Line.t :=
  tryCatch (parseTTMLBody ttml) [].

End Parser.

(** ** The timeline engine *)

Module Timeline.

(** The view state of the component, with the two refs the handlers read
    and write. *)
Record State : Type := {
  zoom : number;
  panOffset : number;
  selectedLine : option Z;
  scrubPosition : option number;
  isDragging : bool;
  dragStartX : number;
  dragStartOffset : number;
  didDrag : bool
}.

(** The state after the first render. *)
Definition initial : State :=
  {| zoom := 1; panOffset := 0; selectedLine := None; scrubPosition := None;
     isDragging := false; dragStartX := 0; dragStartOffset := 0;
     didDrag := false |}.

(** What a handler reads of a pointer event, and of the bounding rectangle
    of the track. *)
Record PointerEvent : Type := { clientX : number; deltaY : number }.
Record DOMRect : Type := { left : number; width : number }.

Definition setScrubPosition (v : number) (st : State) : State :=
  {| zoom := zoom st; panOffset := panOffset st; selectedLine := selectedLine st;
     scrubPosition := Some v; isDragging := isDragging st;
     dragStartX := dragStartX st; dragStartOffset := dragStartOffset st;
     didDrag := didDrag st |}.

Definition setSelectedLine (i : Z) (st : State) : State :=
  {| zoom := zoom st; panOffset := panOffset st; selectedLine := Some i;
     scrubPosition := scrubPosition st; isDragging := isDragging st;
     dragStartX := dragStartX st; dragStartOffset := dragStartOffset st;
     didDrag := didDrag st |}.

Definition setZoom (z : number) (st : State) : State :=
  {| zoom := z; panOffset := panOffset st; selectedLine := selectedLine st;
     scrubPosition := scrubPosition st; isDragging := isDragging st;
     dragStartX := dragStartX st; dragStartOffset := dragStartOffset st;
     didDrag := didDrag st |}.

Definition setPanOffset (o : number) (st : State) : State :=
  {| zoom := zoom st; panOffset := o; selectedLine := selectedLine st;
     scrubPosition := scrubPosition st; isDragging := isDragging st;
     dragStartX := dragStartX st; dragStartOffset := dragStartOffset st;
     didDrag := didDrag st |}.

Definition startDrag (x offset : number) (st : State) : State :=
  {| zoom := zoom st; panOffset := panOffset st; selectedLine := selectedLine st;
     scrubPosition := scrubPosition st; isDragging := true;
     dragStartX := x; dragStartOffset := offset; didDrag := false |}.

(** [lines.findIndex(test)]: [-1] when no element passes. *)
Fixpoint findIndexFrom {A : Type} (test : A -> bool) (l : list A) (i : Z) : Z :=
  match l with
  | [] => -1
  | x :: rest => if test x then i else findIndexFrom test rest (i + 1)
  end.

Definition findIndex {A : Type} (test : A -> bool) (l : list A) : Z :=
  findIndexFrom test l 0.

Section Engine.

Variable lines : list Line.t.

Definition totalDuration : number :=
  if (List.length lines =? 0)%nat then 0
  else maxOf (map Line.end_ lines).

Definition visibleDuration (st : State) : number :=
  (totalDuration / zoom st)%js.

(** [timeToPosition] *)
Definition timeToPosition (st : State) (time : number) : number :=
  ((time - panOffset st) / visibleDuration st * 100)%js.

(** The interval between two markers. *)
Definition markerInterval (st : State) : number :=
  if (zoom st >=? 4)%js then 10000
  else if (zoom st >=? 2)%js then 30000
  else if (totalDuration <=? 180000)%js then 30000
  else 60000.

(** The [for] loop of [timeMarkers], from the value [i] of its counter:
    the markers it pushes, or [None] when [fuel] rounds do not end it. *)
Fixpoint markersFrom (fuel : nat) (interval bound i : number)
  : option (list number) :=
  if (i <=? bound)%js then
    match fuel with
    | O => None
    | S fuel' =>
        match markersFrom fuel' interval bound (i + interval)%js with
        | Some rest =>
            Some (if (i >=? 0)%js && (i <=? totalDuration)%js
                  then i :: rest else rest)
        | None => None
        end
    end
  else Some [].

Definition timeMarkers (fuel : nat) (st : State) : option (list number) :=
  let interval := markerInterval st in
  let startTime := (floor (panOffset st / interval) * interval)%js in
  let endTime := (panOffset st + visibleDuration st)%js in
  markersFrom fuel interval (endTime + interval)%js startTime.

(** The positions at which the markers are drawn. *)
Definition markerPositions (fuel : nat) (st : State) : option (list number) :=
  match timeMarkers fuel st with
  | Some ms => Some (map (timeToPosition st) ms)
  | None => None
  end.

(** [handleTimelineClick]; [track] is [timelineRef.current]. *)
Definition handleTimelineClick (track : option DOMRect) (e : PointerEvent)
           (st : State) : State :=
  match track with
  | None => st
  | Some rect =>
      if (totalDuration === 0)%js || isDragging st || didDrag st then st
      else
        let x := (clientX e - left rect)%js in
        let percentage := (x / width rect)%js in
        let time := (panOffset st + percentage * visibleDuration st)%js in
        let clampedTime := max 0 (min totalDuration time) in
        let st1 := setScrubPosition clampedTime st in
        let lineIndex :=
          findIndex
            (fun line => (clampedTime >=? Line.begin line)%js
                         && (clampedTime <=? Line.end_ line)%js)
            lines in
        if negb (lineIndex =? -1) then setSelectedLine lineIndex st1 else st1
  end.

(** [handleWheel] *)
Definition handleWheel (track : option DOMRect) (e : PointerEvent)
           (st : State) : State :=
  match track with
  | None => st
  | Some rect =>
      let mouseX := (clientX e - left rect)%js in
      let mousePercentage := (mouseX / width rect)%js in
      let mouseTime :=
        (panOffset st + mousePercentage * visibleDuration st)%js in
      let zoomDelta := if (deltaY e >? 0)%js then Fin (4 # 5) else Fin (5 # 4) in
      let newZoom := max 1 (min 20 (zoom st * zoomDelta)%js) in
      let newVisibleDuration := (totalDuration / newZoom)%js in
      let newPanOffset :=
        max 0 (min (totalDuration - newVisibleDuration)%js
                   (mouseTime - mousePercentage * newVisibleDuration)%js) in
      setPanOffset newPanOffset (setZoom newZoom st)
  end.

(** [handleMouseDown] *)
Definition handleMouseDown (e : PointerEvent) (st : State) : State :=
  if (zoom st <=? 1)%js then st
  else startDrag (clientX e) (panOffset st) st.

End Engine.

End Timeline.

Import Timeline.

(** ** Notions used to state the parser's properties *)

(** The numbers [parseTime] reads from a non-empty string. *)
Definition timeOperands (timeStr : string) : list number :=
  let parts := split ":" timeStr in
  if (List.length parts =? 3)%nat then
    [parseInt (item parts 0); parseInt (item parts 1); parseFloat (item parts 2)]
  else if (List.length parts =? 2)%nat then
    [parseInt (item parts 0); parseFloat (item parts 1)]
  else [parseFloat (item parts 0)].

(** The time the parser stores for the attribute [name] of an element. *)
Definition attributeTime (n : Node) (name : string) : number :=
  parseTime (orEmpty (getAttribute n name)).

(** Two ways in which parsers report markup that is not well formed.
    Some return a document that holds a single [parsererror] element,
    which reports the error and quotes the source.  Others keep the tree
    they had built when the error was met and insert a [parsererror]
    element into it: [partialTreeDocument] is such a document for
    [brokenMarkup], whose second paragraph is never closed. *)
Definition parserErrorDocument (message sourceText : string) : Document :=
  {| documentChildren :=
       [Element "parsererror" []
          [Text message; Element "sourcetext" [] [Text sourceText]]] |}.

Definition brokenMarkup : string :=
  "<tt><body><div><p begin='1' end='2'>la</p><p>".

Definition partialTreeDocument (message : string) : Document :=
  {| documentChildren :=
       [Element "tt" []
          [ Element "parsererror" []
              [ Element "h3" [] [Text "This page contains the following errors:"];
                Element "div" [] [Text message] ];
            Element "body" []
              [ Element "div" []
                  [ Element "p" [("begin", "1"); ("end", "2")] [Text "la"];
                    Element "p" [] [] ] ] ]] |}.

(** [Under context above n]: the node [n] lies below [context], and
    [above] lists the elements strictly between the two, the parent of
    [n] first. *)
Inductive Under (context : Node) : list Node -> Node -> Prop :=
| Under_child (n : Node) :
    In n (children context) -> Under context [] n
| Under_step (above : list Node) (parent n : Node) :
    Under context above parent -> In n (children parent) ->
    Under context (parent :: above) n.

(** [Reach above0 n0 above n]: the same, from a node [n0] that is itself
    found under the elements [above0]; [n0] counts. *)
Inductive Reach (above0 : list Node) (n0 : Node) : list Node -> Node -> Prop :=
| Reach_here : Reach above0 n0 above0 n0
| Reach_down (above : list Node) (parent n : Node) :
    Reach above0 n0 above parent -> In n (children parent) ->
    Reach above0 n0 (parent :: above) n.

(** ** Notions used to state the engine's properties *)

(** The pointer's position along the track, as a fraction of its width. *)
Definition pointerFraction (rect : DOMRect) (e : PointerEvent) : number :=
  ((clientX e - left rect) / width rect)%js.

(** The step factor of a wheel event. *)
Definition zoomDelta (e : PointerEvent) : number :=
  if (deltaY e >? 0)%js then Fin (4 # 5) else Fin (5 # 4).

(** ** Notions used to state the join of transliterations *)

(** The table entry of a container element, and the key it is stored
    under. *)
Definition entryOf (textEl : Node) : Translit.t :=
  {| Translit.text := textContent textEl;
     Translit.words := map translitWord (querySelectorAll textEl SelSpanBegin) |}.

Definition forKeyOf (textEl : Node) : option string :=
  orUndefined (getAttribute textEl "for").

(** The container elements of a document, in document order. *)
Definition containerNodes (doc : Document) : list Node :=
  map node (documentQuerySelectorAll doc SelTransliterationText).

(** The last element of a list of containers stored under the key [k]. *)
Fixpoint lastFor (k : string) (containers : list Node) : option Node :=
  match containers with
  | [] => None
  | c :: rest =>
      match lastFor k rest with
      | Some c' => Some c'
      | None =>
          match forKeyOf c with
          | Some fk => if String.eqb fk k then Some c else None
          | None => None
          end
      end
  end.

(** Whether a selector takes the element [n], given whether an element
    named [transliteration] lies above it. *)
Definition selectsNode (sel : Selector) (inTransliteration : bool) (n : Node)
  : bool :=
  match sel with
  | SelP => hasName "p" n
  | SelSpanBegin => hasName "span" n && hasAttribute n "begin"
  | SelTransliterationText => hasName "text" n && inTransliteration
  end.

(** The nodes a selector takes in the tree of [n], [n] included. *)
Fixpoint selectIn (sel : Selector) (inTransliteration : bool) (n : Node)
  : list Node :=
  (if selectsNode sel inTransliteration n then [n] else []) ++
  match n with
  | Element _ _ cs =>
      flat_map (selectIn sel (hasName "transliteration" n || inTransliteration)) cs
  | _ => []
  end.

(** A document with a single root element. *)
Definition rooted (name : string) (attrs : list (string * string))
           (cs : list Node) : Document :=
  {| documentChildren := [Element name attrs cs] |}.

(** ** Well-formed timing values *)

(** The text of a list of decimal digits, and its value. *)
Definition digitChar (d : Z) : ascii := ascii_of_N (Z.to_N (48 + d)).

Fixpoint digitString (ds : list Z) : string :=
  match ds with
  | [] => EmptyString
  | d :: rest => String (digitChar d) (digitString rest)
  end.

Definition isDigit (d : Z) : Prop := 0 <= d <= 9.

Definition valueOf (ds : list Z) : Q := inject_Z (digitsValue 10 ds).

(** Seconds written with a fraction: the digits [ss], a point, the digits
    [fs]; and the number they denote. *)
Definition secondsText (ss fs : list Z) : string :=
  digitString ss +:+ String "." (digitString fs).

Definition secondsValue (ss fs : list Z) : Q :=
  (valueOf (ss ++ fs) / inject_Z (10 ^ Z.of_nat (List.length fs)))%Q.

(** The whole number of milliseconds nearest to [x] seconds, the upper one
    at a tie. *)
Definition milliseconds (x : Q) : number :=
  num (Qfloor (x * 1000 + (1 # 2))).

(** Whether a string is free of colons, and whether it starts with
    something other than a decimal digit. *)
Fixpoint hasNoColon (s : string) : bool :=
  match s with
  | EmptyString => true
  | String c r => negb (Ascii.eqb c ":") && hasNoColon r
  end.

Definition noDigitHead (s : string) : Prop :=
  match s with
  | String c _ => digitValue 10 c = None
  | EmptyString => True
  end.

(** ** Sample inputs *)

Definition mkLine (b e : Z) : Line.t :=
  {| Line.begin := b; Line.end_ := e; Line.text := EmptyString; Line.leadText := EmptyString;
     Line.bgText := EmptyString; Line.words := []; Line.agent := None; Line.key := None;
     Line.transliteration := None |}.

(** A paragraph with a lead word, a word nested under a background span,
    and a word that carries the background role itself. *)
Definition sampleParagraph : Node :=
  Element "p" [("begin", "0"); ("end", "2"); ("itunes:key", "L1"); ("ttm:agent", "v1")]
    [ Element "span" [("begin", "0"); ("end", "1")] [Text "He"];
      Text " ";
      Element "span" [("ttm:role", "x-bg")]
        [ Element "span" [("begin", "1.5"); ("end", "2")] [Text "(oh)"] ];
      Element "span" [("begin", "1"); ("end", "1.5"); ("ttm:role", "x-bg")] [Text "llo"] ].

Definition sampleContainer : Node :=
  Element "transliteration" []
    [ Element "text" [("for", "L1")]
        [ Element "span" [("begin", "0"); ("end", "1")] [Text "he"]; Text " llo" ] ].

Definition sampleDocument : Document :=
  {| documentChildren :=
       [ Element "tt" []
           [ Element "head" [] [ Element "metadata" [] [ sampleContainer ] ];
             Element "body" [] [ Element "div" [] [ sampleParagraph ] ] ] ] |}.

(** The two lines of the end-to-end example. *)
Definition twoLines : list Line.t := [mkLine 0 2000; mkLine 2000 5000].

(** A track of 100 pixels at the left edge, and pointer events over it. *)
Definition sampleTrack : DOMRect := {| left := 0; width := 100 |}.
Definition pointerAtHalf : PointerEvent := {| clientX := 50; deltaY := 0 |}.
Definition wheelIn : PointerEvent := {| clientX := 50; deltaY := -1 |}.
Definition wheelOut : PointerEvent := {| clientX := 50; deltaY := 1 |}.

(** A document whose only paragraph has no timing: its line ends at 0. *)
Definition untimedDocument : Document :=
  {| documentChildren := [Element "tt" [] [Element "p" [] [Text "la"]]] |}.

(** The lines of the document without timing. *)
Definition untimedLines : list Line.t := parseDocument untimedDocument.

(** One line of a hundred seconds, and a state zoomed four times whose
    window starts at 25 seconds. *)
Definition hundredSeconds : list Line.t := [mkLine 0 100000].
Definition zoomedFour : State := setPanOffset 25000 (setZoom 4 initial).

(** The sample document with its body before its head, and one with a
    second container under the key of the sample paragraph. *)
Definition sampleDocumentSwapped : Document :=
  rooted "tt" []
    [ Element "body" [] [ Element "div" [] [ sampleParagraph ] ];
      Element "head" [] [ Element "metadata" [] [ sampleContainer ] ] ].

Definition secondContainer : Node :=
  Element "transliteration" []
    [ Element "text" [("for", "L1")] [ Text "hello" ] ].

Definition twoContainersDocument : Document :=
  rooted "tt" []
    [ Element "head" [] [ Element "metadata" [] [ sampleContainer; secondContainer ] ];
      Element "body" [] [ Element "div" [] [ sampleParagraph ] ] ].

(** A timed span whose [begin] is not a time. *)
Definition badSpan : Located :=
  {| ancestors := [];
     node := Element "span" [("begin", "abc"); ("end", "1")] [Text "la"] |}.

(** ** The rest of the parser's file *)

(** Whether an optional flag is set. *)
Definition isSet (flag : option bool) : bool :=
  match flag with Some true => true | _ => false end.

(** [hasOnlyBackgroundVocals] *)
Definition hasOnlyBackgroundVocals (line : Line.t) : bool :=
  (0 <? List.length (Line.words line))%nat &&
  forallb (fun w => isSet (Word.isBackground w)) (Line.words line).

(** Whether the tree of a node is free of CDATA sections, and whether no
    element strictly below it carries the background role. *)
Fixpoint hasNoCData (n : Node) : bool :=
  match n with
  | Element _ _ cs => forallb hasNoCData cs
  | CDATASection _ => false
  | _ => true
  end.

Fixpoint noBackgroundBelow (n : Node) : bool :=
  match n with
  | Element _ _ cs =>
      forallb (fun c => negb (hasBackgroundRole c) && noBackgroundBelow c) cs
  | _ => true
  end.

(** [Interleave a b t]: the string [t] is a merge of [a] and [b] that
    keeps the order of the characters of each. *)
Inductive Interleave : string -> string -> string -> Prop :=
| Interleave_nil : Interleave EmptyString EmptyString EmptyString
| Interleave_left (c : ascii) (a b t : string) :
    Interleave a b t -> Interleave (String c a) b (String c t)
| Interleave_right (c : ascii) (a b t : string) :
    Interleave a b t -> Interleave a (String c b) (String c t).

(** One round of the loop of [collectText] over the child nodes. *)
Definition collectChild (inBackground : bool) (acc : TextAcc) (n : Node)
  : TextAcc :=
  match n with
  | Text d =>
      if inBackground
      then {| accLead := accLead acc; accBg := accBg acc +:+ d |}
      else {| accLead := accLead acc +:+ d; accBg := accBg acc |}
  | Element _ _ _ =>
      collectText n (inBackground || hasBackgroundRole n) acc
  | _ => acc
  end.

(** What the loop does with one child node, stated for all flags and
    accumulators. *)
Definition collectsInterleaved (n : Node) : Prop :=
  forall (inBackground : bool) (acc : TextAcc) (t : string),
    hasNoCData n = true ->
    Interleave (accLead acc) (accBg acc) t ->
    Interleave (accLead (collectChild inBackground acc n))
               (accBg (collectChild inBackground acc n))
               (t +:+ textContent n).

(** What is left of a timing value after its number: it holds no colon
    and starts with neither a digit nor an exponent mark. *)
Definition isUnitSuffix (suffix : string) : bool :=
  hasNoColon suffix &&
  match suffix with
  | String c _ =>
      match digitValue 10 c with
      | Some _ => false
      | None => negb (Ascii.eqb c "e" || Ascii.eqb c "E")
      end
  | EmptyString => true
  end.

(** A time in whole milliseconds, or a value that is not finite. *)
Definition wholeOrNotFinite (a : number) : Prop :=
  match a with
  | Fin _ => exists z : Z, a = num z
  | _ => True
  end.

Definition wholeWord (w : Word.t) : Prop :=
  wholeOrNotFinite (Word.begin w) /\ wholeOrNotFinite (Word.end_ w).

(** ** The parsed view of the playground *)

(** The records the parsed view of [formatBody] builds for a document: the
    timing attributes stay strings, and every [span] is a word. *)
Module View.
Record word : Type := { wordBegin : string; wordEnd : string; wordText : string }.
Record line : Type := {
  begin : string;
  end_ : string;
  text : string;
  words : list word
}.
End View.

(** [p.querySelectorAll('span')] *)
Definition querySpans (p : Node) : list Located :=
  List.filter (fun l => hasName "span" (node l)) (descendants p).

Definition viewWord (span : Located) : View.word :=
  {| View.wordBegin := orEmpty (getAttribute (node span) "begin");
     View.wordEnd := orEmpty (getAttribute (node span) "end");
     View.wordText := textContent (node span) |}.

Definition viewLine (p : Node) : View.line :=
  {| View.begin := orEmpty (getAttribute p "begin");
     View.end_ := orEmpty (getAttribute p "end");
     View.text := textContent p;
     View.words := map viewWord (querySpans p) |}.

(** The [lines] array of the parsed view. *)
Definition parsedViewLines (doc : Document) : list View.line :=
  map viewLine (paragraphs doc).

(** ** The rest of the engine *)

(** [Math.abs] *)
Definition abs (a : number) : number :=
  match a with
  | NaN => NaN
  | PosInf | NegInf => PosInf
  | Fin x => fin (Qabs x)
  end.

Definition setIsDragging (b : bool) (st : State) : State :=
  {| zoom := zoom st; panOffset := panOffset st; selectedLine := selectedLine st;
     scrubPosition := scrubPosition st; isDragging := b;
     dragStartX := dragStartX st; dragStartOffset := dragStartOffset st;
     didDrag := didDrag st |}.

Definition setDidDrag (b : bool) (st : State) : State :=
  {| zoom := zoom st; panOffset := panOffset st; selectedLine := selectedLine st;
     scrubPosition := scrubPosition st; isDragging := isDragging st;
     dragStartX := dragStartX st; dragStartOffset := dragStartOffset st;
     didDrag := b |}.

(** The view state with what the component has scheduled: the offset the
    pending animation frame will set, if one is pending, and the number
    of timeouts that will clear the drag mark. *)
Record Session : Type := {
  view : State;
  pendingFrame : option number;
  pendingResets : nat
}.

Definition firstSession : Session :=
  {| view := initial; pendingFrame := None; pendingResets := 0 |}.

(** A handler that touches the view state only. *)
Definition onView (f : State -> State) (s : Session) : Session :=
  {| view := f (view s); pendingFrame := pendingFrame s;
     pendingResets := pendingResets s |}.

(** [handleLineClick]; scrolling the list is not modelled. *)
Definition handleLineClick (index : Z) (line : Line.t) (st : State) : State :=
  setScrubPosition (Line.begin line) (setSelectedLine index st).

(** The [onClick] of a bar of the track. *)
Definition barClick (index : Z) (line : Line.t) (st : State) : State :=
  if didDrag st then st else handleLineClick index line st.

(** [handleResetZoom] *)
Definition handleResetZoom (st : State) : State :=
  setPanOffset 0 (setZoom 1 st).

Section Controls.

Variable lines : list Line.t.

Definition maxPanOffset (st : State) : number :=
  max 0 (totalDuration lines - visibleDuration lines st)%js.

(** [handleZoomIn] and [handleZoomOut] *)
Definition handleZoomIn (st : State) : State :=
  let newZoom := min 20 (zoom st * Fin (3 # 2))%js in
  let newVisibleDuration := (totalDuration lines / newZoom)%js in
  let centerTime := (panOffset st + visibleDuration lines st / 2)%js in
  let newPanOffset :=
    max 0 (min (totalDuration lines - newVisibleDuration)%js
               (centerTime - newVisibleDuration / 2)%js) in
  setPanOffset newPanOffset (setZoom newZoom st).

Definition handleZoomOut (st : State) : State :=
  let newZoom := max 1 (zoom st / Fin (3 # 2))%js in
  let newVisibleDuration := (totalDuration lines / newZoom)%js in
  let centerTime := (panOffset st + visibleDuration lines st / 2)%js in
  let newPanOffset :=
    max 0 (min (totalDuration lines - newVisibleDuration)%js
               (centerTime - newVisibleDuration / 2)%js) in
  setPanOffset newPanOffset (setZoom newZoom st).

(** The three zoom buttons: a disabled button does not fire. *)
Definition zoomOutButton (st : State) : State :=
  if (zoom st <=? 1)%js then st else handleZoomOut st.

Definition resetButton (st : State) : State :=
  if (zoom st === 1)%js then st else handleResetZoom st.

Definition zoomInButton (st : State) : State :=
  if (zoom st >=? 20)%js then st else handleZoomIn st.

(** [handleMouseMove]: the frame it requests replaces the one pending. *)
Definition handleMouseMove (track : option DOMRect) (e : PointerEvent)
           (s : Session) : Session :=
  let st := view s in
  match track with
  | None => s
  | Some rect =>
      if negb (isDragging st) then s
      else
        let deltaX := abs (clientX e - dragStartX st)%js in
        let st1 := if (deltaX >? 3)%js then setDidDrag true st else st in
        let deltaTime :=
          ((clientX e - dragStartX st) / width rect
           * visibleDuration lines st)%js in
        let newOffset :=
          max 0 (min (maxPanOffset st) (dragStartOffset st - deltaTime)%js) in
        {| view := st1; pendingFrame := Some newOffset;
           pendingResets := pendingResets s |}
  end.

(** [handleMouseUp]: the pending frame is cancelled, and a timeout is set
    that will clear the drag mark. *)
Definition handleMouseUp (s : Session) : Session :=
  if negb (isDragging (view s)) then s
  else {| view := setIsDragging false (view s); pendingFrame := None;
          pendingResets := S (pendingResets s) |}.

(** [handleMouseLeave] *)
Definition handleMouseLeave (s : Session) : Session :=
  if negb (isDragging (view s)) then s
  else {| view := setDidDrag false (setIsDragging false (view s));
          pendingFrame := None; pendingResets := pendingResets s |}.

(** The animation frame runs the callback of the last move. *)
Definition animationFrame (s : Session) : Session :=
  match pendingFrame s with
  | Some newOffset =>
      {| view := setPanOffset newOffset (view s); pendingFrame := None;
         pendingResets := pendingResets s |}
  | None => s
  end.

(** A timeout of [handleMouseUp] runs. *)
Definition timeoutFires (s : Session) : Session :=
  match pendingResets s with
  | S n => {| view := setDidDrag false (view s); pendingFrame := pendingFrame s;
              pendingResets := n |}
  | O => s
  end.

(** What can happen to the component between two renders. *)
Inductive Event : Type :=
| TrackClick (rect : DOMRect) (e : PointerEvent)
| Wheel (rect : DOMRect) (e : PointerEvent)
| MouseDown (e : PointerEvent)
| MouseMove (rect : DOMRect) (e : PointerEvent)
| MouseUp
| MouseLeave
| ZoomInClick
| ZoomOutClick
| ResetClick
| LineClick (index : Z) (line : Line.t)
| BarClick (index : Z) (line : Line.t)
| Frame
| Timeout.

Definition step (s : Session) (ev : Event) : Session :=
  match ev with
  | TrackClick rect e => onView (handleTimelineClick lines (Some rect) e) s
  | Wheel rect e => onView (handleWheel lines (Some rect) e) s
  | MouseDown e => onView (handleMouseDown e) s
  | MouseMove rect e => handleMouseMove (Some rect) e s
  | MouseUp => handleMouseUp s
  | MouseLeave => handleMouseLeave s
  | ZoomInClick => onView zoomInButton s
  | ZoomOutClick => onView zoomOutButton s
  | ResetClick => onView resetButton s
  | LineClick index line => onView (handleLineClick index line) s
  | BarClick index line => onView (barClick index line) s
  | Frame => animationFrame s
  | Timeout => timeoutFires s
  end.

Definition run (events : list Event) (s : Session) : Session :=
  fold_left step events s.

End Controls.







(** [a % b]: the remainder has the sign of the dividend. *)
Definition truncate (q : Q) : Z :=
  if Qle_bool 0 q then Qfloor q else Qceiling q.

Definition rem (a b : number) : number :=
  match a, b with
  | NaN, _ | _, NaN => NaN
  | (PosInf | NegInf), _ => NaN
  | Fin x, (PosInf | NegInf) => Fin x
  | Fin x, Fin y =>
      if Qeq_bool y 0 then NaN
      else fin (x - y * inject_Z (truncate (x / y)))
  end.

(** The two numbers the label of a time marker prints: the minutes, and
    the seconds that are padded to two digits. *)
Definition markerMinutes (time : number) : number := floor (time / 60000)%js.

Definition markerSeconds (time : number) : number :=
  floor (rem time 60000 / 1000)%js.

(** A press or move of the pointer at [x], and two sessions over the
    sample track: one in which every zoom-out waits for the frame of the
    last move, and one in which the wheel zooms out before that frame. *)
Definition pointerAt (x : Z) : PointerEvent := {| clientX := x; deltaY := 0 |}.


Definition lateFrameSession : list Event :=
  [ ZoomInClick; MouseDown (pointerAt 50); MouseMove sampleTrack (pointerAt 0);
    Wheel sampleTrack wheelOut; Frame ].

(** A session at rest over the view zoomed four times. *)
Definition zoomedSession : Session :=
  {| view := zoomedFour; pendingFrame := None; pendingResets := 0 |}.

(** The line of a paragraph whose [end] attribute is not a time. *)
Definition unparsedEnd : Line.t :=
  parseLine ∅ (Element "p" [("begin", "1"); ("end", "soon")] [Text "la"]).

(** ** The parameters of the playground page *)

Module Playground.

Inductive Provider : Type := ttml | kugou | legacy.

Definition providerName (p : Provider) : string :=
  match p with
  | ttml => "ttml"
  | kugou => "kugou"
  | legacy => "legacy"
  end.

(** A [URLSearchParams] object: its pairs in order.  [get] gives the value
    of the first pair of a name, [set] replaces that pair and removes the
    later ones of the name, or appends a pair. *)
Definition URLSearchParams : Type := list (string * string).

Fixpoint get (name : string) (params : URLSearchParams) : option string :=
  match params with
  | [] => None
  | (k, v) :: rest => if String.eqb k name then Some v else get name rest
  end.

Definition remove (name : string) (params : URLSearchParams) : URLSearchParams :=
  List.filter (fun kv => negb (String.eqb (fst kv) name)) params.

Fixpoint set (name value : string) (params : URLSearchParams) : URLSearchParams :=
  match params with
  | [] => [(name, value)]
  | (k, v) :: rest =>
      if String.eqb k name then (name, value) :: remove name rest
      else (k, v) :: set name value rest
  end.

(** Whether a string counts as true in a condition. *)
Definition truthy (s : string) : bool := negb (String.eqb s EmptyString).

(** [a || b] where [a] is a string or [null] *)
Definition orElse (a : option string) (b : string) : string :=
  match a with
  | Some s => if truthy s then s else b
  | None => b
  end.

Record Params : Type := {
  song : string;
  artist : string;
  album : string;
  duration : string;
  provider : Provider
}.

(** [getInitialParams]; [search] is the parameters of
    [window.location.search], and [None] when there is no window. *)
Definition getInitialParams (search : option URLSearchParams) : Params :=
  match search with
  | None =>
      {| song := EmptyString; artist := EmptyString; album := EmptyString;
         duration := EmptyString; provider := ttml |}
  | Some params =>
      let providerParam := get "provider" params in
      {| song := orElse (get "s" params) (orElse (get "song" params) EmptyString);
         artist := orElse (get "a" params) (orElse (get "artist" params) EmptyString);
         album := orElse (get "al" params) (orElse (get "album" params) EmptyString);
         duration :=
           orElse (get "d" params) (orElse (get "duration" params) EmptyString);
         provider :=
           match providerParam with
           | Some name =>
               if String.eqb name "kugou" then kugou
               else if String.eqb name "legacy" then legacy
               else ttml
           | None => ttml
           end |}
  end.

(** The parameters the page writes to its address when its state changes. *)
Definition addressParams (p : Params) : URLSearchParams :=
  let params := [] in
  let params := if truthy (song p) then set "s" (song p) params else params in
  let params := if truthy (artist p) then set "a" (artist p) params else params in
  let params := if truthy (album p) then set "al" (album p) params else params in
  let params :=
    if truthy (duration p) then set "d" (duration p) params else params in
  match provider p with
  | ttml => params
  | other => set "provider" (providerName other) params
  end.

End Playground.

(** ** Binary64 numbers *)

(** The numbers of the source as they are computed: IEEE-754 binary64
    values with round-to-nearest-even, signed zeros, infinities and NaN.
    The claims that speak of computed values are settled over this
    module. *)
Module Double.

(** The double nearest to [n / d]. *)
Definition ofRatio (n d : positive) : float :=
  SF2Prim (SFdiv prec emax (S754_finite false n 0) (S754_finite false d 0)).

(** The double nearest to a rational, and the double nearest to an
    integer. *)
Definition ofQ (q : Q) : float :=
  match Qnum q with
  | Z0 => PrimFloat.zero
  | Zpos n => ofRatio n (Qden q)
  | Zneg n => PrimFloat.opp (ofRatio n (Qden q))
  end.

Definition of_Z (z : Z) : float :=
  SF2Prim (binary_normalize prec emax z 0 false).

(** The rational a finite double stands for. *)
Definition toQ (x : float) : option Q :=
  match Prim2SF x with
  | S754_zero _ => Some 0%Q
  | S754_finite s m e =>
      let v := (inject_Z (Zpos m) * Qpower 2 e)%Q in
      Some (if s then Qopp v else v)
  | _ => None
  end.

Definition isNegativeZero (x : float) : bool :=
  match PrimFloat.classify x with
  | NZero => true
  | _ => false
  end.

(** [Math.max(a, b)] and [Math.min(a, b)]: NaN when an argument is NaN,
    and the positive zero is the greater zero. *)
Definition max (a b : float) : float :=
  if PrimFloat.is_nan a || PrimFloat.is_nan b then PrimFloat.nan
  else if PrimFloat.ltb a b then b
  else if PrimFloat.ltb b a then a
  else if isNegativeZero a then b else a.

Definition min (a b : float) : float :=
  if PrimFloat.is_nan a || PrimFloat.is_nan b then PrimFloat.nan
  else if PrimFloat.ltb b a then b
  else if PrimFloat.ltb a b then a
  else if isNegativeZero b then b else a.

(** [Math.max(...xs)] *)
Definition maxOf (xs : list float) : float :=
  fold_left max xs PrimFloat.neg_infinity.

(** [Math.floor] and [Math.round] (ties go up).  A double whose exponent
    is not negative is a whole number already; below that, the result is
    computed from the exact value. *)
Definition floor (x : float) : float :=
  match Prim2SF x with
  | S754_finite _ _ e =>
      if 0 <=? e then x
      else match toQ x with
           | Some q => of_Z (Qfloor q)
           | None => x
           end
  | _ => x
  end.

Definition round (x : float) : float :=
  match Prim2SF x with
  | S754_finite s _ e =>
      if 0 <=? e then x
      else match toQ x with
           | Some q =>
               let r := Qfloor (q + (1 # 2)) in
               if r =? 0 then (if s then PrimFloat.neg_zero else PrimFloat.zero)
               else of_Z r
           | None => x
           end
  | _ => x
  end.

(** [parseInt(s)] with no radix argument. *)
Definition parseInt (s : string) : float :=
  let '(negative, s1) := sign (trimStart s) in
  let '(radix, s2) :=
    match stripPrefix "0x" s1, stripPrefix "0X" s1 with
    | Some r, _ | None, Some r => (16, r)
    | None, None => (10, s1)
    end in
  match digits radix s2 with
  | ([], _) => PrimFloat.nan
  | (ds, _) =>
      let v := of_Z (digitsValue radix ds) in
      if negative then PrimFloat.opp v else v
  end.

(** [parseFloat(s)]: the double nearest to the value of the longest prefix
    that is a decimal literal. *)
Definition parseFloat (s : string) : float :=
  let '(negative, s1) := sign (trimStart s) in
  match stripPrefix "Infinity" s1 with
  | Some _ => if negative then PrimFloat.neg_infinity else PrimFloat.infinity
  | None =>
      let '(ip, s2) := digits 10 s1 in
      let '(fp, s3) :=
        match s2 with
        | String "."%char r =>
            match ip, digits 10 r with
            | [], ([], _) => ([], s2)
            | _, (ds, rest) => (ds, rest)
            end
        | _ => ([], s2)
        end in
      match ip, fp with
      | [], [] => PrimFloat.nan
      | _, _ =>
          let mantissa := digitsValue 10 (ip ++ fp) in
          let e := exponentPart s3 - Z.of_nat (List.length fp) in
          let v := ofQ (inject_Z mantissa * Qpower 10 e)%Q in
          if negative then PrimFloat.opp v else v
      end
  end.

(** [parseTime] *)
Definition parseTime (timeStr : string) : float :=
  if String.eqb timeStr EmptyString then 0%float
  else
    let parts := split ":" timeStr in
    let seconds :=
      if (List.length parts =? 3)%nat then
        (parseInt (item parts 0) * 3600 + parseInt (item parts 1) * 60
         + parseFloat (item parts 2))%float
      else if (List.length parts =? 2)%nat then
        (parseInt (item parts 0) * 60 + parseFloat (item parts 1))%float
      else parseFloat (item parts 0) in
    round (seconds * 1000)%float.

(** What the engine reads of a line: its two times. *)
Record Span : Type := { begin : float; end_ : float }.

(** The times [parseTTML] stores for a paragraph, and for the paragraphs
    of a document. *)
Definition spanOf (p : Node) : Span :=
  {| begin := parseTime (orEmpty (getAttribute p "begin"));
     end_ := parseTime (orEmpty (getAttribute p "end")) |}.

Definition documentSpans (doc : Document) : list Span :=
  map spanOf (paragraphs doc).

(** The view state of the component, with the two refs the handlers read
    and write. *)
Record State : Type := {
  zoom : float;
  panOffset : float;
  selectedLine : option Z;
  scrubPosition : option float;
  isDragging : bool;
  dragStartX : float;
  dragStartOffset : float;
  didDrag : bool
}.

Definition initial : State :=
  {| zoom := 1; panOffset := 0; selectedLine := None; scrubPosition := None;
     isDragging := false; dragStartX := 0; dragStartOffset := 0;
     didDrag := false |}.

Record PointerEvent : Type := { clientX : float; deltaY : float }.
Record DOMRect : Type := { left : float; width : float }.

Definition setScrubPosition (v : float) (st : State) : State :=
  {| zoom := zoom st; panOffset := panOffset st; selectedLine := selectedLine st;
     scrubPosition := Some v; isDragging := isDragging st;
     dragStartX := dragStartX st; dragStartOffset := dragStartOffset st;
     didDrag := didDrag st |}.

Definition setSelectedLine (i : Z) (st : State) : State :=
  {| zoom := zoom st; panOffset := panOffset st; selectedLine := Some i;
     scrubPosition := scrubPosition st; isDragging := isDragging st;
     dragStartX := dragStartX st; dragStartOffset := dragStartOffset st;
     didDrag := didDrag st |}.

Definition setZoom (z : float) (st : State) : State :=
  {| zoom := z; panOffset := panOffset st; selectedLine := selectedLine st;
     scrubPosition := scrubPosition st; isDragging := isDragging st;
     dragStartX := dragStartX st; dragStartOffset := dragStartOffset st;
     didDrag := didDrag st |}.

Definition setPanOffset (o : float) (st : State) : State :=
  {| zoom := zoom st; panOffset := o; selectedLine := selectedLine st;
     scrubPosition := scrubPosition st; isDragging := isDragging st;
     dragStartX := dragStartX st; dragStartOffset := dragStartOffset st;
     didDrag := didDrag st |}.

Section Engine.

Variable lines : list Span.

(** The [totalDuration] memo *)
Definition totalDuration : float :=
  if (List.length lines =? 0)%nat then 0%float
  else maxOf (map end_ lines).

Definition visibleDuration (st : State) : float :=
  (totalDuration / zoom st)%float.

(** [timeToPosition] *)
Definition timeToPosition (st : State) (time : float) : float :=
  ((time - panOffset st) / visibleDuration st * 100)%float.

(** The interval between two markers. *)
Definition markerInterval (st : State) : float :=
  if (4 <=? zoom st)%float then 10000%float
  else if (2 <=? zoom st)%float then 30000%float
  else if (totalDuration <=? 180000)%float then 30000%float
  else 60000%float.

(** The loop of the [timeMarkers] memo, from the value [i] of its
    variable; [None] when the fuel runs out before the loop ends. *)
Fixpoint markersFrom (fuel : nat) (interval bound i : float)
  : option (list float) :=
  if (i <=? bound)%float then
    match fuel with
    | O => None
    | S fuel' =>
        match markersFrom fuel' interval bound (i + interval)%float with
        | Some rest =>
            Some (if (0 <=? i)%float && (i <=? totalDuration)%float
                  then i :: rest else rest)
        | None => None
        end
    end
  else Some [].

Definition timeMarkers (fuel : nat) (st : State) : option (list float) :=
  let interval := markerInterval st in
  let startTime := (floor (panOffset st / interval) * interval)%float in
  let endTime := (panOffset st + visibleDuration st)%float in
  markersFrom fuel interval (endTime + interval)%float startTime.

(** The positions at which the markers are drawn. *)
Definition markerPositions (fuel : nat) (st : State) : option (list float) :=
  match timeMarkers fuel st with
  | Some ms => Some (map (timeToPosition st) ms)
  | None => None
  end.

(** [handleTimelineClick]; [track] is [timelineRef.current]. *)
Definition handleTimelineClick (track : option DOMRect) (e : PointerEvent)
           (st : State) : State :=
  match track with
  | None => st
  | Some rect =>
      if (totalDuration =? 0)%float || isDragging st || didDrag st then st
      else
        let x := (clientX e - left rect)%float in
        let percentage := (x / width rect)%float in
        let time := (panOffset st + percentage * visibleDuration st)%float in
        let clampedTime := max 0 (min totalDuration time) in
        let st1 := setScrubPosition clampedTime st in
        let lineIndex :=
          findIndex
            (fun line => (begin line <=? clampedTime)%float
                         && (clampedTime <=? end_ line)%float)
            lines in
        if negb (lineIndex =? -1) then setSelectedLine lineIndex st1 else st1
  end.

(** [handleWheel] *)
Definition handleWheel (track : option DOMRect) (e : PointerEvent)
           (st : State) : State :=
  match track with
  | None => st
  | Some rect =>
      let mouseX := (clientX e - left rect)%float in
      let mousePercentage := (mouseX / width rect)%float in
      let mouseTime :=
        (panOffset st + mousePercentage * visibleDuration st)%float in
      let zoomDelta := if (0 <? deltaY e)%float then 0.8%float else 1.25%float in
      let newZoom := max 1 (min 20 (zoom st * zoomDelta)%float) in
      let newVisibleDuration := (totalDuration / newZoom)%float in
      let newPanOffset :=
        max 0 (min (totalDuration - newVisibleDuration)%float
                   (mouseTime - mousePercentage * newVisibleDuration)%float) in
      setPanOffset newPanOffset (setZoom newZoom st)
  end.

End Engine.

End Double.

(** ** The claims over binary64, in the words of the specification *)

Module DoubleSpec.

Import Double.

(** The time-parsing rule for a non-empty string: three parts are hours,
    minutes and seconds; two parts are minutes and seconds; one part is
    seconds.  The rule does not speak of four parts or more. *)
Definition specSeconds (timeStr : string) : option float :=
  if String.eqb timeStr EmptyString then None
  else
    match split ":" timeStr with
    | [h; m; s] => Some (parseInt h * 3600 + parseInt m * 60 + parseFloat s)%float
    | [m; s] => Some (parseInt m * 60 + parseFloat s)%float
    | [s] => Some (parseFloat s)
    | _ => None
    end.

(** The representation of a whole number of magnitude [m] below 2^53: its
    mantissa is shifted to 53 bits. *)
Definition wholeSF (s : bool) (m : positive) : spec_float :=
  match 53 - Zpos (digits2_pos m) with
  | Zpos d => S754_finite s (Pos.iter xO m d) (Zneg d)
  | _ => S754_finite s m 0
  end.

(** The pointer's position along the track, as a fraction of its width. *)
Definition pointerFraction (rect : DOMRect) (e : PointerEvent) : float :=
  ((clientX e - left rect) / width rect)%float.

(** The absolute time shown at a fraction of the track. *)
Definition positionToTime (lines : list Span) (st : State) (fraction : float)
  : float :=
  (panOffset st + fraction * visibleDuration lines st)%float.

(** Whether [time] lies in the closed range of a line. *)
Definition containsTime (time : float) (line : Span) : bool :=
  (begin line <=? time)%float && (time <=? end_ line)%float.

(** The step factor of a wheel event. *)
Definition zoomDelta (e : PointerEvent) : float :=
  if (0 <? deltaY e)%float then 0.8%float else 1.25%float.

(** The gridline sentence.  Whether [m] is a multiple of [interval]; and
    the markers the sentence describes: the multiples of the interval
    inside the visible window, and the one multiple that follows within
    one interval of the end of the window. *)
Definition isMultipleOf (interval m : float) : bool :=
  (floor (m / interval) * interval =? m)%float.

Definition specMarker (lines : list Span) (st : State) (m : float) : bool :=
  let interval := markerInterval lines st in
  let windowEnd := (panOffset st + visibleDuration lines st)%float in
  isMultipleOf interval m &&
  (((panOffset st <=? m)%float && (m <=? windowEnd)%float) ||
   ((windowEnd <? m)%float && (m <=? windowEnd + interval)%float)).

(** The value of the loop variable of [timeMarkers] after [k] rounds, the
    bound the loop tests it against, and the guard a value passes to be
    emitted. *)
Definition firstCandidate (lines : list Span) (st : State) : float :=
  (floor (panOffset st / markerInterval lines st) * markerInterval lines st)%float.

Fixpoint candidateFrom (interval i : float) (k : nat) : float :=
  match k with
  | O => i
  | S k' => candidateFrom interval (i + interval)%float k'
  end.

Definition candidate (lines : list Span) (st : State) (k : nat) : float :=
  candidateFrom (markerInterval lines st) (firstCandidate lines st) k.

Definition loopBound (lines : list Span) (st : State) : float :=
  (panOffset st + visibleDuration lines st + markerInterval lines st)%float.

Definition withinDuration (lines : list Span) (m : float) : bool :=
  (0 <=? m)%float && (m <=? totalDuration lines)%float.

End DoubleSpec.

(** Sample inputs over binary64: lines, a track of 100 pixels at the left
    edge, and pointer events. *)
Definition span (b e : float) : Double.Span :=
  {| Double.begin := b; Double.end_ := e |}.

Definition twoSpans : list Double.Span := [span 0 2000; span 2000 5000].

Definition track100 : Double.DOMRect :=
  {| Double.left := 0; Double.width := 100 |}.

Definition pointer (x dy : float) : Double.PointerEvent :=
  {| Double.clientX := x; Double.deltaY := dy |}.

(** A hundred seconds in one line, the view zoomed four times whose window
    starts at 25 seconds, and a view over three minutes after a wheel
    step at 70 pixels. *)
Definition oneSpan : list Double.Span := [span 0 100000].

Definition zoomedFourTimes : Double.State :=
  Double.setPanOffset 25000 (Double.setZoom 4 Double.initial).



(** ** Properties of numbers *)

Module JSNumberFacts.

Lemma fin_ext (x y : Q) : (x == y)%Q -> fin x = fin y.
Proof. intros H. unfold fin. f_equal. now apply Qred_complete. Qed.

Lemma Qred_inject_Z (z : Z) : Qred (inject_Z z) = inject_Z z.
Proof.
  unfold Qred, inject_Z.
  generalize (Z.ggcd_gcd z 1), (Z.ggcd_correct_divisors z 1).
  destruct (Z.ggcd z 1) as [g [a b]]. simpl.
  rewrite Z.gcd_1_r. intros -> [H1 H2].
  rewrite Z.mul_1_l in H1, H2. subst a b. reflexivity.
Qed.

Lemma fin_inject_Z (q : Q) (z : Z) : (q == inject_Z z)%Q -> fin q = of_Z z.
Proof.
  intros H. unfold fin, of_Z. f_equal.
  rewrite (Qred_complete _ _ H). apply Qred_inject_Z.
Qed.

Lemma le_Fin (x y : Q) : le (Fin x) (Fin y) = true <-> (x <= y)%Q.
Proof. apply Qle_bool_iff. Qed.

Lemma lt_Fin (x y : Q) : lt (Fin x) (Fin y) = true <-> (x < y)%Q.
Proof.
  simpl. rewrite negb_true_iff. split.
  - intros H. apply Qnot_le_lt. intros Hle.
    apply Qle_bool_iff in Hle. congruence.
  - intros H. destruct (Qle_bool y x) eqn:E; [|reflexivity].
    apply Qle_bool_iff in E. lra.
Qed.

Lemma lt_Fin_false (x y : Q) : lt (Fin x) (Fin y) = false <-> (y <= x)%Q.
Proof.
  simpl. rewrite negb_false_iff. apply Qle_bool_iff.
Qed.

Lemma le_Fin_false (x y : Q) : le (Fin x) (Fin y) = false <-> (y < x)%Q.
Proof.
  split; intros H.
  - apply Qnot_le_lt. intros Hle. apply le_Fin in Hle. congruence.
  - destruct (le (Fin x) (Fin y)) eqn:E; [|reflexivity].
    apply le_Fin in E. lra.
Qed.

Lemma max_Fin (x y : Q) :
  max (Fin x) (Fin y) = Fin (if Qle_bool y x then x else y).
Proof. unfold max, lt. now destruct (Qle_bool y x). Qed.

Lemma min_Fin (x y : Q) :
  min (Fin x) (Fin y) = Fin (if Qle_bool x y then x else y).
Proof. unfold min, lt. now destruct (Qle_bool x y). Qed.

(** NaN is absorbing. *)
Lemma add_NaN_r (a : number) : add a NaN = NaN.
Proof. now destruct a. Qed.

Lemma mul_NaN_l (a : number) : mul NaN a = NaN.
Proof. reflexivity. Qed.

(** Clamping a number between two bounds. *)
Lemma clamp_range (lo hi t : number) :
  isNaN t = false -> le lo hi = true ->
  le lo (max lo (min hi t)) = true /\ le (max lo (min hi t)) hi = true.
Proof.
  intros Ht Hb.
  destruct t as [| | |t]; try discriminate;
    destruct lo as [| | |l]; try discriminate;
    destruct hi as [| | |h]; try discriminate;
    cbn [max min lt le]; try (split; reflexivity);
    repeat match goal with
           | |- context [Qle_bool ?a ?b] =>
               let E := fresh "E" in destruct (Qle_bool a b) eqn:E; cbn [negb]
           end;
    cbn [max min lt le];
    repeat match goal with
           | H : Qle_bool _ _ = true |- _ => apply Qle_bool_iff in H
           | H : Qle_bool ?a ?b = false |- _ =>
               apply (proj1 (le_Fin_false a b)) in H
           | H : le (Fin _) (Fin _) = true |- _ => apply le_Fin in H
           end;
    try (split; (reflexivity || (apply Qle_bool_iff; lra)));
    try lra.
Qed.

Lemma div_Fin (x y : Q) : ~ (y == 0)%Q -> div (Fin x) (Fin y) = fin (x / y).
Proof.
  intros H. unfold div. destruct (Qeq_bool y 0) eqn:E; [|reflexivity].
  apply Qeq_bool_iff in E. contradiction.
Qed.

(** Two finite results are equal as soon as their rationals are. *)
Ltac fin_eq :=
  repeat (unfold fin; cbn [add sub mul]);
  f_equal; apply Qred_complete; rewrite !Qred_correct.

(** Clamping a finite number between finite bounds. *)
Lemma clamp_Fin (l h t : Q) :
  exists c : Q,
    max (Fin l) (min (Fin h) (Fin t)) = Fin c /\
    ((l <= h)%Q -> (l <= c)%Q /\ (c <= h)%Q) /\
    ((l <= t)%Q -> (t <= h)%Q -> (c == t)%Q).
Proof.
  rewrite min_Fin, max_Fin. eexists. split; [reflexivity|].
  destruct (Qle_bool h t) eqn:E1;
    [apply Qle_bool_iff in E1 | apply (proj1 (le_Fin_false h t)) in E1];
    match goal with
    | |- context [Qle_bool ?a ?b] =>
        destruct (Qle_bool a b) eqn:E2;
        [apply Qle_bool_iff in E2 | apply (proj1 (le_Fin_false a b)) in E2]
    end; split; intros; try split; lra.
Qed.

Lemma of_Z_add (a b : Z) : add (of_Z a) (of_Z b) = of_Z (a + b).
Proof.
  unfold of_Z, add. apply fin_inject_Z. now rewrite inject_Z_plus.
Qed.

Lemma of_Z_mul (a b : Z) : mul (of_Z a) (of_Z b) = of_Z (a * b).
Proof.
  unfold of_Z, mul. apply fin_inject_Z. now rewrite inject_Z_mult.
Qed.

Lemma le_of_Z_Fin (x : Z) (b : Q) : le (of_Z x) (Fin b) = (x <=? Qfloor b)%Z.
Proof.
  unfold of_Z. destruct (Z.leb_spec x (Qfloor b)) as [H|H].
  - apply le_Fin. apply Qle_trans with (inject_Z (Qfloor b)).
    + now rewrite <- Zle_Qle.
    + apply Qfloor_le.
  - apply le_Fin_false. apply Qlt_le_trans with (inject_Z (Qfloor b + 1)).
    + apply Qlt_floor.
    + rewrite <- Zle_Qle. lia.
Qed.

Lemma le_of_Z (x y : Z) : le (of_Z x) (of_Z y) = (x <=? y)%Z.
Proof. unfold of_Z at 2. now rewrite le_of_Z_Fin, Qfloor_Z. Qed.

Lemma lt_of_Z (x y : Z) : lt (of_Z x) (of_Z y) = (x <? y)%Z.
Proof.
  unfold of_Z. destruct (Z.ltb_spec x y) as [H|H].
  - apply lt_Fin. now rewrite <- Zlt_Qlt.
  - apply lt_Fin_false. now rewrite <- Zle_Qle.
Qed.

Lemma floor_fin (q : Q) : floor (fin q) = of_Z (Qfloor q).
Proof.
  unfold fin, floor. f_equal. apply Qfloor_comp. apply Qred_correct.
Qed.

End JSNumberFacts.

Import JSNumberFacts.

(** ** Properties of [parseTime] *)

Lemma parseTime_nonempty (timeStr : string) :
  timeStr <> EmptyString ->
  parseTime timeStr =
    let parts := split ":" timeStr in
    round ((if (List.length parts =? 3)%nat then
              parseInt (item parts 0) * 3600 + parseInt (item parts 1) * 60
              + parseFloat (item parts 2)
            else if (List.length parts =? 2)%nat then
              parseInt (item parts 0) * 60 + parseFloat (item parts 1)
            else parseFloat (item parts 0)) * 1000)%js.
Proof.
  intros H. unfold parseTime.
  destruct (String.eqb_spec timeStr EmptyString); [contradiction|reflexivity].
Qed.

(** Parsing strings of decimal digits. *)

Ltac digit_cases d H :=
  let Hc := fresh in
  assert (Hc : d = 0 \/ d = 1 \/ d = 2 \/ d = 3 \/ d = 4 \/
               d = 5 \/ d = 6 \/ d = 7 \/ d = 8 \/ d = 9)
    by (unfold isDigit in H; lia);
  destruct Hc as [->|[->|[->|[->|[->|[->|[->|[->|[->| ->]]]]]]]]].

Lemma digitValue_digitChar (d : Z) :
  isDigit d -> digitValue 10 (digitChar d) = Some d.
Proof. intros H. digit_cases d H; reflexivity. Qed.

(** A digit is not white space, a sign, a colon, a point, or a letter. *)
Lemma digitChar_plain (d : Z) :
  isDigit d ->
  isWhiteSpace (digitChar d) = false /\
  Ascii.eqb (digitChar d) "-" = false /\
  Ascii.eqb (digitChar d) "+" = false /\
  Ascii.eqb (digitChar d) ":" = false /\
  Ascii.eqb "x" (digitChar d) = false /\
  Ascii.eqb "X" (digitChar d) = false /\
  Ascii.eqb "I" (digitChar d) = false.
Proof. intros H. digit_cases d H; repeat split; reflexivity. Qed.

Lemma digits_digitString (ds : list Z) (rest : string) :
  Forall isDigit ds -> noDigitHead rest ->
  digits 10 (digitString ds +:+ rest) = (ds, rest).
Proof.
  intros Hds Hrest.
  induction Hds as [|d ds Hd Hds IH].
  - change (digits 10 rest = ([], rest)).
    destruct rest as [|c r]; [reflexivity|].
    cbn [noDigitHead] in Hrest. cbn [digits]. now rewrite Hrest.
  - change (digits 10 (String (digitChar d) (digitString ds +:+ rest))
            = (d :: ds, rest)).
    cbn [digits]. now rewrite (digitValue_digitChar d Hd), IH.
Qed.

Lemma append_empty_r (s : string) : s +:+ EmptyString = s.
Proof.
  induction s as [|c s IH]; [reflexivity|].
  change (String c (s +:+ EmptyString) = String c s). now rewrite IH.
Qed.

Lemma trimStart_digitString (ds : list Z) (rest : string) :
  ds <> [] -> Forall isDigit ds ->
  trimStart (digitString ds +:+ rest) = digitString ds +:+ rest.
Proof.
  intros Hne Hds. destruct Hds as [|d ds Hd _]; [contradiction|].
  change (digitString (d :: ds) +:+ rest)
    with (String (digitChar d) (digitString ds +:+ rest)).
  cbn [trimStart]. now rewrite (proj1 (digitChar_plain d Hd)).
Qed.

Lemma sign_digitString (ds : list Z) (rest : string) :
  ds <> [] -> Forall isDigit ds ->
  sign (digitString ds +:+ rest) = (false, digitString ds +:+ rest).
Proof.
  intros Hne Hds. destruct Hds as [|d ds Hd _]; [contradiction|].
  change (digitString (d :: ds) +:+ rest)
    with (String (digitChar d) (digitString ds +:+ rest)).
  digit_cases d Hd; reflexivity.
Qed.

Lemma stripPrefix_digit (p : string) (d : Z) (s : string) :
  isDigit d ->
  match p with
  | String c _ => Ascii.eqb c (digitChar d) = false
  | EmptyString => False
  end ->
  stripPrefix p (String (digitChar d) s) = None.
Proof.
  intros Hd Hp. destruct p as [|c p]; [contradiction|].
  cbn [stripPrefix]. now rewrite Hp.
Qed.

Lemma stripPrefix_hex_digitString (ds : list Z) :
  Forall isDigit ds ->
  stripPrefix "0x" (digitString ds) = None /\
  stripPrefix "0X" (digitString ds) = None.
Proof.
  intros Hds. destruct Hds as [|d ds Hd Hds]; [split; reflexivity|].
  cbn [digitString stripPrefix].
  destruct (Ascii.eqb "0" (digitChar d)); [|split; reflexivity].
  destruct Hds as [|d' ds Hd' _]; [split; reflexivity|].
  cbn [digitString].
  destruct (digitChar_plain d' Hd') as (_ & _ & _ & _ & Hx & HX & _).
  now rewrite Hx, HX.
Qed.

Lemma parseInt_digitString (ds : list Z) :
  ds <> [] -> Forall isDigit ds ->
  parseInt (digitString ds) = num (digitsValue 10 ds).
Proof.
  intros Hne Hds. unfold parseInt.
  pose proof (trimStart_digitString ds EmptyString Hne Hds) as Ht.
  pose proof (sign_digitString ds EmptyString Hne Hds) as Hs.
  pose proof (digits_digitString ds EmptyString Hds I) as Hd.
  pose proof (append_empty_r (digitString ds)) as Happ.
  rewrite Happ in Ht, Hs, Hd. rewrite Ht, Hs.
  destruct (stripPrefix_hex_digitString ds Hds) as [-> ->].
  rewrite Hd. destruct ds; [contradiction|reflexivity].
Qed.

Lemma Qpower_10_neg (n : nat) :
  (Qpower 10 (0 - Z.of_nat n) == / inject_Z (10 ^ Z.of_nat n))%Q.
Proof.
  rewrite Z.sub_0_l, Qpower_opp. apply Qinv_comp.
  symmetry. apply (Zpower_Qpower 10). lia.
Qed.

Lemma parseFloat_secondsText (ss fs : list Z) :
  ss <> [] -> Forall isDigit ss -> Forall isDigit fs ->
  parseFloat (secondsText ss fs) = fin (secondsValue ss fs).
Proof.
  intros Hne Hss Hfs. unfold parseFloat, secondsText.
  rewrite (trimStart_digitString ss _ Hne Hss), (sign_digitString ss _ Hne Hss).
  assert (Hinf : stripPrefix "Infinity" (digitString ss +:+ String "." (digitString fs))
                 = None).
  { destruct Hss as [|d ss Hd _]; [contradiction|].
    apply stripPrefix_digit; [exact Hd|].
    now destruct (digitChar_plain d Hd) as (_ & _ & _ & _ & _ & _ & HI). }
  rewrite Hinf, (digits_digitString ss _ Hss) by reflexivity.
  pose proof (digits_digitString fs EmptyString Hfs I) as Hd.
  rewrite append_empty_r in Hd. rewrite Hd.
  destruct ss as [|s0 ss]; [contradiction|].
  cbv iota beta. cbn [exponentPart].
  apply fin_ext. unfold secondsValue, valueOf, Qdiv.
  now rewrite Qpower_10_neg.
Qed.

Lemma split_noColon (s : string) :
  hasNoColon s = true -> split ":" s = [s].
Proof.
  induction s as [|c s IH]; cbn [hasNoColon split]; [reflexivity|].
  intros H. apply andb_true_iff in H. destruct H as [Hc Hs].
  apply negb_true_iff in Hc. now rewrite Hc, (IH Hs).
Qed.

Lemma split_append (a b : string) :
  hasNoColon a = true ->
  split ":" (a +:+ String ":" b) = a :: split ":" b.
Proof.
  induction a as [|c a IH]; intros H.
  - reflexivity.
  - cbn [hasNoColon] in H. apply andb_true_iff in H. destruct H as [Hc Ha].
    apply negb_true_iff in Hc.
    change (split ":" (String c (a +:+ String ":" b)) = String c a :: split ":" b).
    cbn [split]. now rewrite Hc, (IH Ha).
Qed.

Lemma hasNoColon_digitString (ds : list Z) :
  Forall isDigit ds -> hasNoColon (digitString ds) = true.
Proof.
  induction 1 as [|d ds Hd _ IH]; cbn [digitString hasNoColon]; [reflexivity|].
  destruct (digitChar_plain d Hd) as (_ & _ & _ & Hc & _).
  now rewrite Hc, IH.
Qed.

Lemma hasNoColon_secondsText (ss fs : list Z) :
  Forall isDigit ss -> Forall isDigit fs ->
  hasNoColon (secondsText ss fs) = true.
Proof.
  intros Hss Hfs. unfold secondsText.
  induction Hss as [|d ss Hd _ IH].
  - change (hasNoColon (String "." (digitString fs)) = true).
    cbn [hasNoColon]. now rewrite (hasNoColon_digitString fs Hfs).
  - change (hasNoColon (String (digitChar d)
                          (digitString ss +:+ String "." (digitString fs))) = true).
    cbn [hasNoColon].
    destruct (digitChar_plain d Hd) as (_ & _ & _ & Hc & _).
    now rewrite Hc, IH.
Qed.

Lemma digitString_nonempty (ds : list Z) (rest : string) :
  ds <> [] -> String.eqb (digitString ds +:+ rest) EmptyString = false.
Proof. destruct ds; [contradiction|reflexivity]. Qed.

(** The milliseconds of a finite number of seconds. *)
Lemma round_milliseconds (a : number) (x : Q) :
  (exists q, a = Fin q /\ (q == x)%Q) ->
  round (a * 1000)%js = milliseconds x.
Proof.
  intros (q & -> & Hq). unfold milliseconds, num, round, mul, fin, of_Z.
  f_equal. f_equal. apply Qfloor_comp. rewrite Qred_correct, Hq. reflexivity.
Qed.

(** The three shapes of a well-formed timing value. *)
Lemma parseTime_well_formed (hs ms ss fs : list Z) :
  hs <> [] -> ms <> [] -> ss <> [] ->
  Forall isDigit hs -> Forall isDigit ms -> Forall isDigit ss -> Forall isDigit fs ->
  parseTime (digitString hs +:+ String ":" (digitString ms +:+ String ":" (secondsText ss fs)))
  = milliseconds (valueOf hs * 3600 + valueOf ms * 60 + secondsValue ss fs) /\
  parseTime (digitString ms +:+ String ":" (secondsText ss fs))
  = milliseconds (valueOf ms * 60 + secondsValue ss fs) /\
  parseTime (secondsText ss fs) = milliseconds (secondsValue ss fs).
Proof.
  intros Hh Hm Hs Hhs Hms Hss Hfs.
  pose proof (hasNoColon_digitString hs Hhs) as Ch.
  pose proof (hasNoColon_digitString ms Hms) as Cm.
  pose proof (hasNoColon_secondsText ss fs Hss Hfs) as Cs.
  pose proof (parseInt_digitString hs Hh Hhs) as Ph.
  pose proof (parseInt_digitString ms Hm Hms) as Pm.
  pose proof (parseFloat_secondsText ss fs Hs Hss Hfs) as Ps.
  repeat apply conj.
  - unfold parseTime. rewrite (digitString_nonempty hs _ Hh).
    rewrite (split_append _ _ Ch), (split_append _ _ Cm), (split_noColon _ Cs).
    cbn [List.length Nat.eqb item nth]. rewrite Ph, Pm, Ps.
    apply round_milliseconds. eexists. split; [reflexivity|].
    unfold valueOf. rewrite !Qred_correct. reflexivity.
  - unfold parseTime. rewrite (digitString_nonempty ms _ Hm).
    rewrite (split_append _ _ Cm), (split_noColon _ Cs).
    cbn [List.length Nat.eqb item nth]. rewrite Pm, Ps.
    apply round_milliseconds. eexists. split; [reflexivity|].
    unfold valueOf. rewrite !Qred_correct. reflexivity.
  - unfold parseTime, secondsText at 1. rewrite (digitString_nonempty ss _ Hs).
    fold (secondsText ss fs). rewrite (split_noColon _ Cs).
    cbn [List.length Nat.eqb item nth]. rewrite Ps.
    apply round_milliseconds. eexists. split; [reflexivity|].
    rewrite !Qred_correct. reflexivity.
Qed.

(** ** Properties of the document tree *)

Lemma Node_nested_ind (P : Node -> Prop) :
  (forall l a cs, Forall P cs -> P (Element l a cs)) ->
  (forall d, P (Text d)) ->
  (forall d, P (CDATASection d)) ->
  (forall d, P (Comment d)) ->
  (forall t d, P (ProcessingInstruction t d)) ->
  forall n, P n.
Proof.
  intros HE HT HC HM HP.
  fix IH 1. intros [l a cs|d|d|d|t d];
    [|apply HT|apply HC|apply HM|apply HP].
  apply HE. induction cs as [|c cs IHcs]; constructor; [apply IH|exact IHcs].
Qed.

Lemma in_subtree (above : list Node) (n : Node) (l : Located) :
  In l (subtree above n) <->
  l = {| ancestors := above; node := n |} \/
  exists c, In c (children n) /\ In l (subtree (n :: above) c).
Proof.
  destruct n as [name a cs|d|d|d|t d]; cbn [subtree children In].
  - rewrite in_flat_map. split; intros [H|H]; auto.
  - split; [intros [H|[]]; auto | intros [H|(c & [] & _)]; auto].
  - split; [intros [H|[]]; auto | intros [H|(c & [] & _)]; auto].
  - split; [intros [H|[]]; auto | intros [H|(c & [] & _)]; auto].
  - split; [intros [H|[]]; auto | intros [H|(c & [] & _)]; auto].
Qed.

Lemma subtree_reach (n0 : Node) :
  forall (above0 : list Node) (l : Located),
    In l (subtree above0 n0) -> Reach above0 n0 (ancestors l) (node l).
Proof.
  induction n0 as [name a cs IH|d|d|d|t d] using Node_nested_ind;
    intros above0 l Hin; apply in_subtree in Hin;
    destruct Hin as [->|(c & Hc & Hin)]; try constructor;
    try contradiction.
  rewrite List.Forall_forall in IH. cbn [children] in Hc.
  specialize (IH c Hc _ _ Hin).
  clear Hin. induction IH as [|above parent n Hr IHr Hn].
  - apply Reach_down with (above := above0) (parent := Element name a cs).
    + constructor.
    + exact Hc.
  - now apply Reach_down.
Qed.

Lemma subtree_self (above : list Node) (n : Node) :
  In {| ancestors := above; node := n |} (subtree above n).
Proof. apply in_subtree. now left. Qed.

Lemma subtree_trans (n0 : Node) :
  forall (above0 : list Node) (l l' : Located),
    In l (subtree above0 n0) ->
    In l' (subtree (ancestors l) (node l)) ->
    In l' (subtree above0 n0).
Proof.
  induction n0 as [name a cs IH|d|d|d|t d] using Node_nested_ind;
    intros above0 l l' Hin Hin'; apply in_subtree in Hin;
    destruct Hin as [->|(c & Hc & Hin)]; try exact Hin'; try contradiction.
  rewrite List.Forall_forall in IH. cbn [children] in Hc.
  apply in_subtree. right. exists c. split; [exact Hc|].
  now apply (IH c Hc _ l l').
Qed.

Lemma in_descendants (context : Node) (l : Located) :
  In l (descendants context) <-> Under context (ancestors l) (node l).
Proof.
  unfold descendants. rewrite in_flat_map. split.
  - intros (c & Hc & Hin). apply subtree_reach in Hin.
    induction Hin as [|above parent n Hr IH Hn].
    + now constructor.
    + now apply Under_step.
  - destruct l as [above n]. cbn [ancestors node].
    induction 1 as [n Hn|above parent n Hu IH Hn].
    + exists n. split; [exact Hn|apply subtree_self].
    + destruct IH as (c & Hc & Hin). exists c. split; [exact Hc|].
      apply (subtree_trans _ _ _ _ Hin). cbn [ancestors node].
      apply in_subtree. right. exists n. split; [exact Hn|apply subtree_self].
Qed.

(** The upward walk finds the marker exactly when an element on the way
    carries it. *)
Lemma underBackground_true (parents : list Node) :
  underBackground parents = true <->
  exists a, In a parents /\ hasBackgroundRole a = true.
Proof.
  induction parents as [|parent above IH]; cbn [underBackground In].
  - split; [discriminate|intros (a & [] & _)].
  - destruct (hasBackgroundRole parent) eqn:E.
    + split; [intros _; exists parent; auto|reflexivity].
    + rewrite IH. split.
      * intros (a & Ha & Hr). exists a. auto.
      * intros (a & [<-|Ha] & Hr); [congruence|exists a; auto].
Qed.

Lemma underBackground_false (parents : list Node) :
  underBackground parents = false <->
  forall a, In a parents -> hasBackgroundRole a = false.
Proof.
  split.
  - intros H a Ha. destruct (hasBackgroundRole a) eqn:E; [|reflexivity].
    assert (underBackground parents = true) by (apply underBackground_true; eauto).
    congruence.
  - intros H. destruct (underBackground parents) eqn:E; [|reflexivity].
    apply underBackground_true in E. destruct E as (a & Ha & Hr).
    rewrite (H a Ha) in Hr. discriminate.
Qed.

Lemma in_paragraph_words (table : gmap string Translit.t) (p : Node)
      (above : list Node) (span : Node) :
  Under p above span ->
  selects SelSpanBegin {| ancestors := above; node := span |} = true ->
  In (lineWord {| ancestors := above; node := span |})
     (Line.words (parseLine table p)).
Proof.
  intros Hu Hs. cbn [parseLine Line.words]. apply in_map.
  unfold querySelectorAll. apply filter_In. split; [|exact Hs].
  now apply in_descendants.
Qed.

Lemma in_parseDocument (doc : Document) (p : Node) :
  In p (paragraphs doc) ->
  In (parseLine (transliterationMap doc) p) (parseDocument doc).
Proof. intros H. unfold parseDocument. now apply in_map. Qed.

(** C3.  In every parsed document, a timed word element of a paragraph is
    emitted as a word of that paragraph's line; the word has
    [isBackground = true] when some element strictly between it and the
    paragraph carries the background role, and has no [isBackground] when
    none does.  The flag of a word depends on its own chain of ancestors
    only, so both kinds of word can sit in one line. *)
Theorem background_flag_from_ancestors
        (doc : Document) (p : Node) (above : list Node) (span : Node) :
  In p (paragraphs doc) ->
  Under p above span ->
  selects SelSpanBegin {| ancestors := above; node := span |} = true ->
  let line := parseLine (transliterationMap doc) p in
  let word := lineWord {| ancestors := above; node := span |} in
  In line (parseDocument doc) /\
  In word (Line.words line) /\
  Word.begin word = attributeTime span "begin" /\
  Word.end_ word = attributeTime span "end" /\
  Word.text word = textContent span /\
  ((exists a, In a above /\ hasBackgroundRole a = true) ->
   Word.isBackground word = Some true) /\
  ((forall a, In a above -> hasBackgroundRole a = false) ->
   Word.isBackground word = None).
Proof.
  intros Hp Hu Hs line word.
  split; [now apply in_parseDocument|].
  split; [now apply in_paragraph_words|].
  repeat split.
  - intros H. apply underBackground_true in H.
    unfold word, lineWord. cbn [ancestors Word.isBackground]. now rewrite H.
  - intros H. apply underBackground_false in H.
    unfold word, lineWord. cbn [ancestors Word.isBackground]. now rewrite H.
Qed.

Lemma background_flag_from_ancestors_witness :
  Word.isBackground
    (lineWord
       {| ancestors := [Element "span" [("ttm:role", "x-bg")]
                          [Element "span" [("begin", "1.5"); ("end", "2")] [Text "(oh)"]]];
          node := Element "span" [("begin", "1.5"); ("end", "2")] [Text "(oh)"] |})
  = Some true.
Proof.
  refine (proj1 (proj2 (proj2 (proj2 (proj2 (proj2
    (background_flag_from_ancestors sampleDocument sampleParagraph _ _ _ _ _)))))) _).
  - vm_compute. auto.
  - apply Under_step.
    + apply Under_child. vm_compute. auto.
    + vm_compute. auto.
  - reflexivity.
  - eexists. split; [left; reflexivity|reflexivity].
Defined.

(** The words of the sample paragraph: a lead word, a word under a
    background span, and a word that carries the role itself. *)
Example sampleParagraph_flags :
  map Word.isBackground
      (Line.words (parseLine (transliterationMap sampleDocument) sampleParagraph))
  = [None; Some true; None].
Proof. vm_compute. reflexivity. Qed.

(** C10.  A timed word element that carries the background role itself,
    under a chain of ancestors none of which carries it, is emitted with
    no [isBackground]: the walk reads the chain of ancestors and never the
    word element, so any other element in its place gets the same flag. *)
Theorem own_background_role_ignored
        (doc : Document) (p : Node) (above : list Node) (span : Node) :
  In p (paragraphs doc) ->
  Under p above span ->
  selects SelSpanBegin {| ancestors := above; node := span |} = true ->
  hasBackgroundRole span = true ->
  (forall a, In a above -> hasBackgroundRole a = false) ->
  let line := parseLine (transliterationMap doc) p in
  let word := lineWord {| ancestors := above; node := span |} in
  In line (parseDocument doc) /\
  In word (Line.words line) /\
  Word.isBackground word = None /\
  (forall other : Node,
      Word.isBackground (lineWord {| ancestors := above; node := other |})
      = Word.isBackground word).
Proof.
  intros Hp Hu Hs _ Hnone line word.
  split; [now apply in_parseDocument|].
  split; [now apply in_paragraph_words|].
  split; [|reflexivity].
  apply underBackground_false in Hnone.
  unfold word, lineWord. cbn [ancestors Word.isBackground]. now rewrite Hnone.
Qed.

Lemma own_background_role_ignored_witness :
  Word.isBackground
    (lineWord
       {| ancestors := [];
          node := Element "span" [("begin", "1"); ("end", "1.5"); ("ttm:role", "x-bg")]
                    [Text "llo"] |})
  = None.
Proof.
  refine (proj1 (proj2 (proj2
    (own_background_role_ignored sampleDocument sampleParagraph _ _ _ _ _ _ _)))).
  - vm_compute. auto.
  - apply Under_child. vm_compute. auto.
  - reflexivity.
  - reflexivity.
  - intros a [].
Defined.

(** ** Properties of [parseTTML] *)

Lemma parseTTML_throw (parseFromString : string -> Completion Document)
      (ttml : string) :
  parseFromString ttml = Throw -> parseTTML parseFromString ttml = [].
Proof. intros H. unfold parseTTML, parseTTMLBody. now rewrite H. Qed.

Lemma parseTTML_normal (parseFromString : string -> Completion Document)
      (ttml : string) (doc : Document) :
  parseFromString ttml = Normal doc ->
  parseTTML parseFromString ttml = parseDocument doc.
Proof. intros H. unfold parseTTML, parseTTMLBody. now rewrite H. Qed.

(** C2, as the code has it.  [parseTTML] returns a list of lines for
    every input and every behaviour of the platform's parser.  When the
    parser throws, the [catch] branch returns the empty list.  Otherwise
    the list has one line for each paragraph element of the document the
    parser returns, whatever else the document holds: a document with no
    paragraph element gives the empty list, and so does the document that
    holds a [parsererror] element alone. *)
Theorem parseTTML_lines_of_returned_document
        (parseFromString : string -> Completion Document) (ttml : string) :
  (parseFromString ttml = Throw -> parseTTML parseFromString ttml = []) /\
  (forall doc : Document,
      parseFromString ttml = Normal doc ->
      parseTTML parseFromString ttml
      = map (parseLine (transliterationMap doc)) (paragraphs doc) /\
      List.length (parseTTML parseFromString ttml)
      = List.length (documentQuerySelectorAll doc SelP)) /\
  (forall doc : Document,
      parseFromString ttml = Normal doc ->
      documentQuerySelectorAll doc SelP = [] ->
      parseTTML parseFromString ttml = []) /\
  (forall message sourceText : string,
      parseFromString ttml = Normal (parserErrorDocument message sourceText) ->
      parseTTML parseFromString ttml = []).
Proof.
  split; [|split; [|split]].
  - apply parseTTML_throw.
  - intros doc H. rewrite (parseTTML_normal _ _ _ H).
    split; [reflexivity|]. unfold parseDocument, paragraphs.
    now rewrite !length_map.
  - intros doc H Hp. rewrite (parseTTML_normal _ _ _ H).
    unfold parseDocument, paragraphs. now rewrite Hp.
  - intros message sourceText H.
    now rewrite (parseTTML_normal _ _ _ H).
Qed.

Lemma parseTTML_lines_of_returned_document_witness :
  parseTTML (fun _ => Throw) brokenMarkup = [] /\
  parseTTML (fun s => Normal (parserErrorDocument "XML Parsing Error" s))
            brokenMarkup = [] /\
  parseTTML (fun _ => Normal {| documentChildren := [Element "tt" [] [Text "la"]] |})
            "<tt>la</tt>" = [] /\
  List.length (parseTTML (fun _ => Normal sampleDocument) EmptyString)
  = List.length (documentQuerySelectorAll sampleDocument SelP).
Proof.
  repeat apply conj.
  - apply (proj1 (parseTTML_lines_of_returned_document (fun _ => Throw) brokenMarkup)).
    reflexivity.
  - apply (proj2 (proj2 (proj2 (parseTTML_lines_of_returned_document
             (fun s => Normal (parserErrorDocument "XML Parsing Error" s))
             brokenMarkup)))
             "XML Parsing Error"%string brokenMarkup).
    reflexivity.
  - apply (proj1 (proj2 (proj2 (parseTTML_lines_of_returned_document
             (fun _ => Normal {| documentChildren := [Element "tt" [] [Text "la"]] |})
             "<tt>la</tt>")))
             {| documentChildren := [Element "tt" [] [Text "la"]] |});
      reflexivity.
  - apply (proj1 (proj2 (parseTTML_lines_of_returned_document
             (fun _ => Normal sampleDocument) EmptyString)) sampleDocument).
    reflexivity.
Defined.

(** The claim of C2 fails on markup that is not well formed.  The source
    never looks for a [parsererror] element: when the parser keeps the
    tree it had built and inserts that element, the paragraphs of the tree
    are returned as lines. *)
Lemma malformed_markup_yields_lines :
  let doc := partialTreeDocument "error on line 1 at column 46" in
  existsb (fun l => hasName "parsererror" (node l)) (documentNodes doc) = true /\
  map (fun line => (Line.begin line, Line.end_ line, Line.text line))
      (parseTTML (fun _ => Normal doc) brokenMarkup)
  = [(num 1000, num 2000, "la"%string); (num 0, num 0, EmptyString)] /\
  parseTTML (fun _ => Normal doc) brokenMarkup <> [].
Proof.
  repeat apply conj; try (vm_compute; reflexivity).
  vm_compute. discriminate.
Qed.

(** ** Timing attributes *)

Lemma round_mul_NaN (a : number) : a = NaN -> round (a * 1000)%js = NaN.
Proof. now intros ->. Qed.

Lemma parseTime_NaN_operand (timeStr : string) :
  timeStr <> EmptyString -> In NaN (timeOperands timeStr) ->
  parseTime timeStr = NaN.
Proof.
  intros Hne Hin. rewrite (parseTime_nonempty _ Hne). cbv zeta.
  unfold timeOperands in Hin. apply round_mul_NaN.
  destruct (List.length (split ":" timeStr) =? 3)%nat;
    [|destruct (List.length (split ":" timeStr) =? 2)%nat];
    cbn [In] in Hin.
  - destruct Hin as [H|[H|[H|[]]]]; rewrite H.
    + reflexivity.
    + now rewrite mul_NaN_l, add_NaN_r.
    + now rewrite add_NaN_r.
  - destruct Hin as [H|[H|[]]]; rewrite H.
    + reflexivity.
    + now rewrite add_NaN_r.
  - destruct Hin as [H|[]]. now rewrite H.
Qed.

(** C7, as the code has it.  A timing attribute that is missing, or
    present and empty, gives the time 0.  A non-empty value in which one
    of the parts read has no numeric prefix gives NaN.  Either way the
    parser computes a value and goes on. *)
Theorem missing_timing_attribute_is_zero (n : Node) (name : string) :
  (getAttribute n name = None \/ getAttribute n name = Some EmptyString ->
   attributeTime n name = num 0) /\
  (forall v : string,
      getAttribute n name = Some v -> v <> EmptyString ->
      In NaN (timeOperands v) ->
      attributeTime n name = NaN).
Proof.
  unfold attributeTime. split.
  - intros [-> | ->]; reflexivity.
  - intros v -> Hne Hin. cbn [orEmpty]. now apply parseTime_NaN_operand.
Qed.

Lemma missing_timing_attribute_is_zero_witness :
  attributeTime (Element "p" [("end", EmptyString)] [Text "la"]) "begin" = num 0 /\
  attributeTime (Element "p" [("end", EmptyString)] [Text "la"]) "end" = num 0 /\
  attributeTime (node badSpan) "begin" = NaN.
Proof.
  split; [|split].
  - apply (proj1 (missing_timing_attribute_is_zero _ _)). left. reflexivity.
  - apply (proj1 (missing_timing_attribute_is_zero _ _)). right. reflexivity.
  - apply (proj2 (missing_timing_attribute_is_zero _ _) "abc"%string).
    + reflexivity.
    + discriminate.
    + vm_compute. auto.
Defined.

(** The claim of C7 fails for an invalid value: the word of a span whose
    [begin] is [abc] gets NaN, which is not the number 0. *)
Lemma invalid_timing_attribute_is_not_zero :
  Word.begin (lineWord badSpan) = NaN /\
  Word.begin (lineWord badSpan) <> num 0 /\
  (Word.begin (lineWord badSpan) === 0)%js = false.
Proof. repeat split; vm_compute; discriminate || reflexivity. Qed.

(** ** Properties of the engine *)

Lemma findIndexFrom_none {A : Type} (test : A -> bool) (l : list A) (i : Z) :
  (forall x, In x l -> test x = false) -> findIndexFrom test l i = -1.
Proof.
  revert i. induction l as [|x l IH]; intros i H; cbn [findIndexFrom].
  - reflexivity.
  - rewrite (H x (or_introl eq_refl)). apply IH.
    intros y Hy. apply H. now right.
Qed.

Lemma findIndexFrom_first {A : Type} (test : A -> bool) (l : list A) :
  forall (i : Z) (k : nat) (x : A),
    nth_error l k = Some x -> test x = true ->
    (forall j y, (j < k)%nat -> nth_error l j = Some y -> test y = false) ->
    findIndexFrom test l i = i + Z.of_nat k.
Proof.
  induction l as [|a l IH]; intros i k x Hk Hx Hbefore.
  - destruct k; discriminate.
  - cbn [findIndexFrom]. destruct k as [|k].
    + injection Hk as ->. rewrite Hx. lia.
    + rewrite (Hbefore 0%nat a); [|lia|reflexivity].
      rewrite (IH (i + 1) k x Hk Hx); [lia|].
      intros j y Hj Hy. apply (Hbefore (S j) y); [lia|exact Hy].
Qed.

Lemma click_ignored (lines : list Line.t) (track : option DOMRect)
      (e : PointerEvent) (st : State) :
  (totalDuration lines === 0)%js = true \/ isDragging st = true \/ didDrag st = true ->
  handleTimelineClick lines track e st = st.
Proof.
  intros H. unfold handleTimelineClick. destruct track as [rect|]; [|reflexivity].
  destruct H as [-> | [-> | ->]]; cbn [orb]; rewrite ?orb_true_r; reflexivity.
Qed.

(** C8, as the code has it.  When the duration is 0 a click leaves the
    state as it is, and so does a mouse-down while the zoom is at most 1,
    as it is after the first render; above zoom 1 a mouse-down starts a
    drag.  A wheel event leaves the selection, the scrub position and the
    drag flags alone; the duration does not enter its guard. *)
Theorem zero_duration_click_and_drag_noops
        (lines : list Line.t) (track : option DOMRect) (e : PointerEvent)
        (st : State) :
  (totalDuration lines === 0)%js = true ->
  handleTimelineClick lines track e st = st /\
  ((zoom st <=? 1)%js = true -> handleMouseDown e st = st) /\
  ((zoom st <=? 1)%js = false -> isDragging (handleMouseDown e st) = true) /\
  selectedLine (handleWheel lines track e st) = selectedLine st /\
  scrubPosition (handleWheel lines track e st) = scrubPosition st /\
  isDragging (handleWheel lines track e st) = isDragging st /\
  didDrag (handleWheel lines track e st) = didDrag st.
Proof.
  intros Hzero. repeat apply conj.
  - apply click_ignored. now left.
  - intros H. unfold handleMouseDown. now rewrite H.
  - intros H. unfold handleMouseDown. now rewrite H.
  - now destruct track.
  - now destruct track.
  - now destruct track.
  - now destruct track.
Qed.

Lemma zero_duration_click_and_drag_noops_witness :
  handleTimelineClick untimedLines (Some sampleTrack) pointerAtHalf initial = initial /\
  handleMouseDown pointerAtHalf initial = initial.
Proof.
  destruct (zero_duration_click_and_drag_noops untimedLines (Some sampleTrack)
              pointerAtHalf initial eq_refl) as (Hclick & Hdown & _).
  split; [exact Hclick|]. apply Hdown. reflexivity.
Defined.

(** The claim of C8 fails for the wheel: on the parsed lines of a document
    whose paragraph has no timing the duration is 0, and a wheel event in
    the first state moves the zoom from 1 to 1.25; a mouse-down after
    that starts a drag. *)
Lemma zero_duration_wheel_changes_state :
  (totalDuration untimedLines === 0)%js = true /\
  zoom (handleWheel untimedLines (Some sampleTrack) wheelIn initial) = Fin (5 # 4) /\
  handleWheel untimedLines (Some sampleTrack) wheelIn initial <> initial /\
  handleMouseDown pointerAtHalf
    (handleWheel untimedLines (Some sampleTrack) wheelIn initial)
  <> handleWheel untimedLines (Some sampleTrack) wheelIn initial.
Proof.
  repeat apply conj; try (vm_compute; reflexivity);
    vm_compute; discriminate.
Qed.

(** ** The time markers *)

Section Markers.

Variable lines : list Line.t.
Variables (T B : Q) (Iz : Z).
Hypothesis HT : totalDuration lines = Fin T.
Hypothesis HI : 0 < Iz.

Lemma markersFrom_increasing :
  forall (fuel : nat) (k : Z) (ms : list number),
    markersFrom lines fuel (num Iz) (Fin B) (num (k * Iz)) = Some ms ->
    StronglySorted (fun a b => lt a b = true) ms /\
    Forall (fun m => exists j : Z, k <= j /\ m = num (j * Iz)) ms.
Proof.
  induction fuel as [|fuel IH]; intros k ms; cbn [markersFrom];
    destruct (num (k * Iz) <=? Fin B)%js; try discriminate;
    try (intros [= <-]; split; constructor).
  unfold num at 2 3. rewrite of_Z_add.
  replace (k * Iz + Iz) with ((k + 1) * Iz) by ring.
  change (of_Z ((k + 1) * Iz)) with (num ((k + 1) * Iz)).
  destruct (markersFrom lines fuel (num Iz) (Fin B) (num ((k + 1) * Iz)))
    as [rest|] eqn:E; [|discriminate].
  destruct (IH (k + 1) rest E) as [Hsorted Hall].
  assert (Hall' : Forall (fun m => exists j : Z, k <= j /\ m = num (j * Iz)) rest).
  { eapply List.Forall_impl; [|exact Hall].
    intros m (j & Hj & ->). exists j. split; [lia|reflexivity]. }
  destruct (_ && _); intros [= <-]; [|now split].
  split.
  - constructor; [exact Hsorted|].
    eapply List.Forall_impl; [|exact Hall].
    intros m (j & Hj & ->). unfold num. rewrite lt_of_Z.
    apply Z.ltb_lt. nia.
  - constructor; [|exact Hall']. exists k. split; [lia|reflexivity].
Qed.

End Markers.

(** ** Properties of the transliteration table *)

Lemma collectTransliteration_lookup (m : gmap string Translit.t)
      (textEl : Located) (k : string) :
  collectTransliteration m textEl !! k =
    match forKeyOf (node textEl) with
    | Some fk => if String.eqb fk k then Some (entryOf (node textEl)) else m !! k
    | None => m !! k
    end.
Proof.
  unfold collectTransliteration, forKeyOf.
  destruct (orUndefined (getAttribute (node textEl) "for")) as [fk|];
    [|reflexivity].
  destruct (String.eqb_spec fk k) as [->|Hne].
  - now rewrite lookup_insert_eq.
  - now rewrite lookup_insert_ne.
Qed.

Lemma table_lookup (cs : list Located) :
  forall (m : gmap string Translit.t) (k : string),
    fold_left collectTransliteration cs m !! k =
      match lastFor k (map node cs) with
      | Some c => Some (entryOf c)
      | None => m !! k
      end.
Proof.
  induction cs as [|c cs IH]; intros m k; cbn [fold_left map lastFor].
  - reflexivity.
  - rewrite IH. destruct (lastFor k (map node cs)); [reflexivity|].
    rewrite collectTransliteration_lookup.
    destruct (forKeyOf (node c)) as [fk|]; [|reflexivity].
    now destruct (String.eqb fk k).
Qed.

Lemma transliterationMap_lookup (doc : Document) (k : string) :
  transliterationMap doc !! k = option_map entryOf (lastFor k (containerNodes doc)).
Proof.
  unfold transliterationMap, containerNodes. rewrite table_lookup.
  now destruct (lastFor k _).
Qed.

Lemma lastFor_Some (k : string) (cs : list Node) (c : Node) :
  lastFor k cs = Some c -> In c cs /\ forKeyOf c = Some k.
Proof.
  induction cs as [|a cs IH]; cbn [lastFor]; [discriminate|].
  destruct (lastFor k cs) as [c'|].
  - intros [= <-]. destruct (IH eq_refl). split; [now right|assumption].
  - destruct (forKeyOf a) as [fk|] eqn:E; [|discriminate].
    destruct (String.eqb_spec fk k) as [->|]; [|discriminate].
    intros [= <-]. split; [now left|assumption].
Qed.

Lemma lastFor_None (k : string) (cs : list Node) :
  lastFor k cs = None <-> forall c, In c cs -> forKeyOf c <> Some k.
Proof.
  induction cs as [|a cs IH]; cbn [lastFor In].
  - split; [intros _ c []|reflexivity].
  - destruct (lastFor k cs) as [c'|] eqn:E.
    + split; [discriminate|]. intros H. exfalso.
      destruct (lastFor_Some _ _ _ E) as [Hin Hk].
      exact (H c' (or_intror Hin) Hk).
    + destruct IH as [IH1 IH2]. specialize (IH1 eq_refl).
      destruct (forKeyOf a) as [fk|] eqn:Ea.
      * destruct (String.eqb_spec fk k) as [->|Hne].
        -- split; [discriminate|]. intros H. exfalso.
           apply (H a); [now left|exact Ea].
        -- split; [|reflexivity]. intros _ c [<-|Hc]; [|now apply IH1].
           rewrite Ea. congruence.
      * split; [|reflexivity]. intros _ c [<-|Hc]; [|now apply IH1].
        rewrite Ea. discriminate.
Qed.

Lemma lastFor_app (k : string) (xs ys : list Node) :
  lastFor k (xs ++ ys) =
    match lastFor k ys with
    | Some c => Some c
    | None => lastFor k xs
    end.
Proof.
  induction xs as [|a xs IH]; cbn [app lastFor].
  - now destruct (lastFor k ys).
  - rewrite IH. now destruct (lastFor k ys).
Qed.

(** What a selector takes in a subtree depends on the elements above it
    only through the presence of a [transliteration] element. *)
Lemma selects_selectsNode (sel : Selector) (l : Located) :
  selects sel l =
    selectsNode sel (existsb (hasName "transliteration") (ancestors l)) (node l).
Proof. now destruct sel. Qed.

Lemma map_filter_flat_map {A B C : Type} (f : A -> list B) (q : B -> bool)
      (g : B -> C) (l : list A) :
  map g (List.filter q (flat_map f l)) =
    flat_map (fun a => map g (List.filter q (f a))) l.
Proof.
  induction l as [|a l IH]; cbn [flat_map]; [reflexivity|].
  now rewrite List.filter_app, map_app, IH.
Qed.

Lemma flat_map_ext_Forall {A B : Type} (f g : A -> list B) (l : list A) :
  Forall (fun a => f a = g a) l -> flat_map f l = flat_map g l.
Proof.
  induction 1 as [|a l Ha Hl IH]; cbn [flat_map]; [reflexivity|].
  now rewrite Ha, IH.
Qed.

Lemma subtree_select (sel : Selector) (n : Node) :
  forall above : list Node,
    map node (List.filter (selects sel) (subtree above n)) =
      selectIn sel (existsb (hasName "transliteration") above) n.
Proof.
  induction n as [name a cs IH|d|d|d|t d] using Node_nested_ind;
    intros above; cbn [subtree selectIn List.filter];
    rewrite selects_selectsNode; cbn [ancestors node];
    try (destruct (selectsNode sel _ _); reflexivity).
  assert (Hcs : map node (List.filter (selects sel)
                            (flat_map (subtree (Element name a cs :: above)) cs))
                = flat_map (selectIn sel (hasName "transliteration" (Element name a cs)
                                          || existsb (hasName "transliteration") above)) cs).
  { rewrite map_filter_flat_map. apply flat_map_ext_Forall.
    eapply List.Forall_impl; [|exact IH]. intros c Hc. cbv beta. apply Hc. }
  destruct (selectsNode sel _ _); cbn [map app]; now rewrite Hcs.
Qed.

Lemma documentSelect (sel : Selector) (doc : Document) :
  map node (documentQuerySelectorAll doc sel) =
    flat_map (selectIn sel false) (documentChildren doc).
Proof.
  unfold documentQuerySelectorAll, documentNodes.
  rewrite map_filter_flat_map. apply flat_map_ext_Forall.
  apply List.Forall_forall. intros c _. apply (subtree_select sel c []).
Qed.

Lemma orUndefined_Some (v : option string) (k : string) :
  orUndefined v = Some k <-> v = Some k /\ k <> EmptyString.
Proof.
  destruct v as [s|]; cbn [orUndefined].
  - destruct (String.eqb_spec s EmptyString) as [->|Hne]; split.
    + discriminate.
    + intros [[= <-] H]. contradiction.
    + intros [= <-]. auto.
    + now intros [[= <-] _].
  - split; [discriminate|intros [[=] _]].
Qed.

Lemma selectIn_paragraph_flag (n : Node) :
  forall f f' : bool, selectIn SelP f n = selectIn SelP f' n.
Proof.
  induction n as [name a cs IH|d|d|d|t d] using Node_nested_ind;
    intros f f'; cbn [selectIn selectsNode]; try reflexivity.
  f_equal. apply flat_map_ext_Forall.
  eapply List.Forall_impl; [|exact IH]. intros c Hc. apply Hc.
Qed.

Lemma rooted_select (sel : Selector) (name : string)
      (attrs : list (string * string)) (cs : list Node) :
  map node (documentQuerySelectorAll (rooted name attrs cs) sel) =
    (if selectsNode sel false (Element name attrs cs)
     then [Element name attrs cs] else []) ++
    flat_map (selectIn sel (String.eqb name "transliteration")) cs.
Proof.
  rewrite documentSelect. cbn [rooted documentChildren flat_map selectIn hasName].
  now rewrite app_nil_r, orb_false_r.
Qed.

Lemma rooted_containers (name : string) (attrs : list (string * string))
      (cs : list Node) :
  containerNodes (rooted name attrs cs) =
    flat_map (selectIn SelTransliterationText (String.eqb name "transliteration")) cs.
Proof.
  unfold containerNodes. rewrite rooted_select.
  cbn [selectsNode]. now rewrite andb_false_r.
Qed.

Lemma rooted_paragraph (name : string) (attrs : list (string * string))
      (cs : list Node) (b p : Node) :
  In b cs -> In p (selectIn SelP false b) ->
  In p (paragraphs (rooted name attrs cs)).
Proof.
  intros Hb Hp. unfold paragraphs. rewrite rooted_select.
  apply in_or_app. right. apply in_flat_map. exists b. split; [exact Hb|].
  now rewrite (selectIn_paragraph_flag b _ false).
Qed.

(** A line reads the table under its own key only. *)
Lemma parseLine_table (t1 t2 : gmap string Translit.t) (p : Node) (k : string) :
  orUndefined (getAttribute p "itunes:key") = Some k ->
  t1 !! k = t2 !! k -> parseLine t1 p = parseLine t2 p.
Proof. intros Hk Ht. unfold parseLine. now rewrite Hk, Ht. Qed.

(** C4.  A line whose key is the [for] attribute of some transliteration
    container receives the entry of a container with that [for]: the one
    the table holds under the key, which is the last such container in
    document order.  The table is built from the whole document before
    any line is assembled, so the line is the same whether the subtree
    holding the container comes before or after the subtree holding the
    paragraph. *)
Theorem transliteration_joined_by_key :
  (forall (doc : Document) (p : Node) (k : string),
      In p (paragraphs doc) ->
      orUndefined (getAttribute p "itunes:key") = Some k ->
      (exists c, In c (containerNodes doc) /\ getAttribute c "for" = Some k) ->
      let line := parseLine (transliterationMap doc) p in
      In line (parseDocument doc) /\
      Line.key line = Some k /\
      (exists c,
          In c (containerNodes doc) /\ getAttribute c "for" = Some k /\
          lastFor k (containerNodes doc) = Some c /\
          Line.transliteration line = Some (entryOf c)) /\
      (forall c,
          In c (containerNodes doc) -> getAttribute c "for" = Some k ->
          (forall c', In c' (containerNodes doc) ->
                      getAttribute c' "for" = Some k -> c' = c) ->
          Line.transliteration line = Some (entryOf c))) /\
  (forall (name : string) (attrs : list (string * string))
          (pre mid post : list Node) (c b p e : Node) (k : string),
      let inT := String.eqb name "transliteration" in
      In p (selectIn SelP false b) ->
      orUndefined (getAttribute p "itunes:key") = Some k ->
      lastFor k (selectIn SelTransliterationText inT c) = Some e ->
      (forall x n, In x (mid ++ b :: post) ->
                   In n (selectIn SelTransliterationText inT x) ->
                   forKeyOf n <> Some k) ->
      let before := rooted name attrs (pre ++ c :: mid ++ b :: post) in
      let after := rooted name attrs (pre ++ b :: mid ++ c :: post) in
      let line := parseLine (transliterationMap before) p in
      In line (parseDocument before) /\
      In line (parseDocument after) /\
      parseLine (transliterationMap after) p = line /\
      Line.transliteration line = Some (entryOf e)).
Proof.
  split.
  - intros doc p k Hp Hk (c & Hc & Hfor) line.
    split; [now apply in_parseDocument|].
    split; [exact Hk|].
    apply orUndefined_Some in Hk as Hk'. destruct Hk' as [_ Hne].
    assert (Hlast : exists c',
               In c' (containerNodes doc) /\ getAttribute c' "for" = Some k /\
               lastFor k (containerNodes doc) = Some c' /\
               Line.transliteration line = Some (entryOf c')).
    { destruct (lastFor k (containerNodes doc)) as [c'|] eqn:E.
      - destruct (lastFor_Some _ _ _ E) as [Hin Hkey].
        exists c'. split; [exact Hin|]. split.
        { unfold forKeyOf in Hkey. now apply orUndefined_Some in Hkey. }
        split; [reflexivity|].
        unfold line, parseLine. cbn [Line.transliteration]. rewrite Hk.
        now rewrite transliterationMap_lookup, E.
      - exfalso. rewrite lastFor_None in E. apply (E c Hc).
        unfold forKeyOf. apply orUndefined_Some. now split. }
    split; [exact Hlast|].
    intros c0 Hc0 Hfor0 Honly.
    destruct Hlast as (c' & Hin' & Hfor' & _ & Ht).
    now rewrite <- (Honly c' Hin' Hfor').
  - intros name attrs pre mid post c b p e k inT Hp Hk He Hnone before after line.
    assert (Hrest : forall xs, (forall x, In x xs -> In x (mid ++ b :: post)) ->
                lastFor k (flat_map (selectIn SelTransliterationText inT) xs) = None).
    { intros xs Hxs. apply lastFor_None. intros n Hn.
      apply in_flat_map in Hn. destruct Hn as (x & Hx & Hn).
      exact (Hnone x n (Hxs x Hx) Hn). }
    assert (Hbefore : transliterationMap before !! k = Some (entryOf e)).
    { rewrite transliterationMap_lookup. unfold before.
      rewrite rooted_containers. fold inT.
      rewrite flat_map_app, lastFor_app. cbn [flat_map].
      rewrite lastFor_app, (Hrest (mid ++ b :: post)) by auto.
      now rewrite He. }
    assert (Hafter : transliterationMap after !! k = Some (entryOf e)).
    { rewrite transliterationMap_lookup. unfold after.
      rewrite rooted_containers. fold inT.
      rewrite flat_map_app, lastFor_app. cbn [flat_map].
      rewrite lastFor_app, flat_map_app, lastFor_app. cbn [flat_map].
      rewrite lastFor_app.
      rewrite (Hrest post) by (intros x Hx; apply in_or_app; right; now right).
      rewrite He. reflexivity. }
    assert (Hsame : parseLine (transliterationMap after) p = line).
    { apply (parseLine_table _ _ p k Hk). now rewrite Hbefore, Hafter. }
    repeat apply conj.
    + apply in_parseDocument.
      apply (rooted_paragraph _ _ _ b p); [|exact Hp].
      apply in_or_app. right. right. apply in_or_app. right. now left.
    + rewrite <- Hsame. apply in_parseDocument.
      apply (rooted_paragraph _ _ _ b p); [|exact Hp].
      apply in_or_app. right. now left.
    + exact Hsame.
    + unfold line, parseLine. cbn [Line.transliteration]. now rewrite Hk.
Qed.

Lemma transliteration_joined_by_key_witness :
  In (parseLine (transliterationMap sampleDocument) sampleParagraph)
     (parseDocument sampleDocument) /\
  Line.key (parseLine (transliterationMap sampleDocument) sampleParagraph)
  = Some "L1"%string /\
  exists c,
    In c (containerNodes sampleDocument) /\
    getAttribute c "for" = Some "L1"%string /\
    lastFor "L1" (containerNodes sampleDocument) = Some c /\
    Line.transliteration (parseLine (transliterationMap sampleDocument) sampleParagraph)
    = Some (entryOf c).
Proof.
  destruct (proj1 transliteration_joined_by_key sampleDocument sampleParagraph
                  "L1"%string) as (Hin & Hkey & Hlast & _).
  - left. reflexivity.
  - reflexivity.
  - eexists. split; [left; reflexivity|reflexivity].
  - split; [exact Hin|]. split; [exact Hkey|exact Hlast].
Defined.

(** The sample paragraph gets the same line with the body before the
    head; with two containers under its key it gets the second. *)
Example sample_join_order :
  parseDocument sampleDocumentSwapped = parseDocument sampleDocument /\
  option_map Translit.text
    (Line.transliteration (parseLine (transliterationMap sampleDocument) sampleParagraph))
  = Some "he llo"%string /\
  option_map Translit.text
    (Line.transliteration
       (parseLine (transliterationMap twoContainersDocument) sampleParagraph))
  = Some "hello"%string.
Proof. repeat apply conj; vm_compute; reflexivity. Qed.

(** ** Further properties of [parseTime] *)

Lemma append_assoc (a b c : string) : (a +:+ b) +:+ c = a +:+ (b +:+ c).
Proof.
  induction a as [|x a IH]; [reflexivity|].
  change (String x ((a +:+ b) +:+ c) = String x (a +:+ (b +:+ c))).
  now rewrite IH.
Qed.

Lemma hasNoColon_append (a b : string) :
  hasNoColon (a +:+ b) = hasNoColon a && hasNoColon b.
Proof.
  induction a as [|x a IH]; [reflexivity|].
  change (hasNoColon (String x (a +:+ b)) = hasNoColon (String x a) && hasNoColon b).
  cbn [hasNoColon]. rewrite IH. now rewrite andb_assoc.
Qed.

Lemma eqb_empty_append (a b : string) :
  String.eqb a EmptyString = false -> String.eqb (a +:+ b) EmptyString = false.
Proof. destruct a; [discriminate|reflexivity]. Qed.

Lemma isUnitSuffix_spec (suffix : string) :
  isUnitSuffix suffix = true ->
  hasNoColon suffix = true /\ noDigitHead suffix /\ exponentPart suffix = 0.
Proof.
  unfold isUnitSuffix. intros H. apply andb_true_iff in H. destruct H as [Hc Hh].
  split; [exact Hc|]. destruct suffix as [|c r]; [split; reflexivity|].
  cbn [noDigitHead exponentPart].
  destruct (digitValue 10 c); [discriminate|].
  apply negb_true_iff in Hh. rewrite Hh. split; reflexivity.
Qed.

Lemma parseFloat_secondsText_suffix (ss fs : list Z) (suffix : string) :
  ss <> [] -> Forall isDigit ss -> Forall isDigit fs ->
  isUnitSuffix suffix = true ->
  parseFloat (secondsText ss fs +:+ suffix) = fin (secondsValue ss fs).
Proof.
  intros Hne Hss Hfs Hsuf.
  destruct (isUnitSuffix_spec suffix Hsuf) as (_ & Hhead & Hexp).
  unfold parseFloat, secondsText. rewrite append_assoc.
  change (String "." (digitString fs) +:+ suffix)
    with (String "." (digitString fs +:+ suffix)).
  rewrite (trimStart_digitString ss _ Hne Hss), (sign_digitString ss _ Hne Hss).
  assert (Hinf : stripPrefix "Infinity"
                   (digitString ss +:+ String "." (digitString fs +:+ suffix))
                 = None).
  { destruct Hss as [|d ss Hd _]; [contradiction|].
    apply stripPrefix_digit; [exact Hd|].
    now destruct (digitChar_plain d Hd) as (_ & _ & _ & _ & _ & _ & HI). }
  rewrite Hinf, (digits_digitString ss _ Hss) by reflexivity.
  rewrite (digits_digitString fs suffix Hfs Hhead).
  destruct ss as [|s0 ss]; [contradiction|].
  cbv iota beta. rewrite Hexp.
  apply fin_ext. unfold secondsValue, valueOf, Qdiv.
  now rewrite Qpower_10_neg.
Qed.

Lemma hasNoColon_secondsText_suffix (ss fs : list Z) (suffix : string) :
  Forall isDigit ss -> Forall isDigit fs -> isUnitSuffix suffix = true ->
  hasNoColon (secondsText ss fs +:+ suffix) = true.
Proof.
  intros Hss Hfs Hsuf. rewrite hasNoColon_append.
  rewrite (hasNoColon_secondsText ss fs Hss Hfs).
  now destruct (isUnitSuffix_spec suffix Hsuf) as (-> & _).
Qed.

(** X1.  Whatever follows the number of seconds is ignored: a timing
    value [s.f], [m:s.f] or [h:m:s.f] followed by a suffix that has no
    colon and starts with neither a digit nor an exponent mark (a unit such
    as [s] or [ms]) parses like the value without the suffix. *)
Theorem parseTime_ignores_unit_suffix (hs ms ss fs : list Z) (suffix : string) :
  hs <> [] -> ms <> [] -> ss <> [] ->
  Forall isDigit hs -> Forall isDigit ms -> Forall isDigit ss -> Forall isDigit fs ->
  isUnitSuffix suffix = true ->
  parseTime (secondsText ss fs +:+ suffix) = parseTime (secondsText ss fs) /\
  parseTime (digitString ms +:+ String ":" (secondsText ss fs +:+ suffix))
  = parseTime (digitString ms +:+ String ":" (secondsText ss fs)) /\
  parseTime (digitString hs +:+ String ":"
               (digitString ms +:+ String ":" (secondsText ss fs +:+ suffix)))
  = parseTime (digitString hs +:+ String ":"
                 (digitString ms +:+ String ":" (secondsText ss fs))).
Proof.
  intros Hh Hm Hs Hhs Hms Hss Hfs Hsuf.
  pose proof (hasNoColon_digitString hs Hhs) as Ch.
  pose proof (hasNoColon_digitString ms Hms) as Cm.
  pose proof (hasNoColon_secondsText_suffix ss fs suffix Hss Hfs Hsuf) as Cs.
  pose proof (parseInt_digitString hs Hh Hhs) as Ph.
  pose proof (parseInt_digitString ms Hm Hms) as Pm.
  pose proof (parseFloat_secondsText_suffix ss fs suffix Hs Hss Hfs Hsuf) as Ps.
  destruct (parseTime_well_formed hs ms ss fs Hh Hm Hs Hhs Hms Hss Hfs)
    as (W3 & W2 & W1).
  assert (E1 : parseTime (secondsText ss fs +:+ suffix)
               = milliseconds (secondsValue ss fs)).
  { unfold parseTime.
    rewrite (eqb_empty_append (secondsText ss fs) suffix)
      by (unfold secondsText; apply (digitString_nonempty ss _ Hs)).
    rewrite (split_noColon _ Cs).
    cbn [List.length Nat.eqb item nth]. rewrite Ps.
    apply round_milliseconds. eexists. split; [reflexivity|].
    rewrite !Qred_correct. reflexivity. }
  repeat apply conj.
  - now rewrite E1, W1.
  - rewrite W2. unfold parseTime. rewrite (digitString_nonempty ms _ Hm).
    rewrite (split_append _ _ Cm), (split_noColon _ Cs).
    cbn [List.length Nat.eqb item nth]. rewrite Pm, Ps.
    apply round_milliseconds. eexists. split; [reflexivity|].
    unfold valueOf. rewrite !Qred_correct. reflexivity.
  - rewrite W3. unfold parseTime. rewrite (digitString_nonempty hs _ Hh).
    rewrite (split_append _ _ Ch), (split_append _ _ Cm), (split_noColon _ Cs).
    cbn [List.length Nat.eqb item nth]. rewrite Ph, Pm, Ps.
    apply round_milliseconds. eexists. split; [reflexivity|].
    unfold valueOf. rewrite !Qred_correct. reflexivity.
Qed.

Lemma parseTime_ignores_unit_suffix_witness :
  parseTime "500.0ms" = parseTime "500.0".
Proof.
  destruct (parseTime_ignores_unit_suffix [0] [0] [5; 0; 0] [0] "ms")
    as (H1 & _ & _).
  1-3: discriminate.
  1-4: repeat constructor; unfold isDigit; lia.
  - reflexivity.
  - exact H1.
Defined.

(** X2.  With three colons or more the branch for a single part runs: only
    the text before the first colon is read, as seconds, and the rest is
    ignored. *)
Theorem parseTime_four_parts_reads_first (a tail : string) :
  hasNoColon a = true -> a <> EmptyString ->
  (3 <= List.length (split ":" tail))%nat ->
  parseTime (a +:+ String ":" tail) = parseTime a.
Proof.
  intros Ha Hne Hlen. unfold parseTime.
  assert (Hae : String.eqb a EmptyString = false)
    by (destruct a; [contradiction|reflexivity]).
  rewrite (eqb_empty_append a _ Hae), Hae.
  rewrite (split_append _ _ Ha), (split_noColon _ Ha).
  cbn [List.length].
  destruct (List.length (split ":" tail)) as [|[|[|n]]]; try lia; reflexivity.
Qed.

Lemma parseTime_four_parts_reads_first_witness :
  parseTime "1:02:03:04" = parseTime "1".
Proof.
  apply (parseTime_four_parts_reads_first "1" "02:03:04").
  - reflexivity.
  - discriminate.
  - vm_compute. lia.
Defined.

(** ** Further properties of the parser *)

(** X3.  A line carries a transliteration only when its paragraph has a
    non-empty key and some container of the document has that key as its
    [for]; the transliteration is then the entry of such a container. *)
Theorem transliteration_only_from_matching_container
        (doc : Document) (p : Node) (t : Translit.t) :
  Line.transliteration (parseLine (transliterationMap doc) p) = Some t ->
  exists (k : string) (c : Node),
    getAttribute p "itunes:key" = Some k /\ k <> EmptyString /\
    In c (containerNodes doc) /\ getAttribute c "for" = Some k /\
    t = entryOf c.
Proof.
  unfold parseLine. cbn [Line.transliteration].
  destruct (orUndefined (getAttribute p "itunes:key")) as [k|] eqn:Hk;
    [|discriminate].
  rewrite transliterationMap_lookup.
  destruct (lastFor k (containerNodes doc)) as [c|] eqn:Hc; [|discriminate].
  cbn [option_map]. intros [= <-].
  apply orUndefined_Some in Hk. destruct Hk as [Hk Hne].
  destruct (lastFor_Some _ _ _ Hc) as [Hin Hfor].
  unfold forKeyOf in Hfor. apply orUndefined_Some in Hfor.
  exists k, c. repeat split; try assumption. apply Hfor.
Qed.

Lemma transliteration_only_from_matching_container_witness :
  exists (k : string) (c : Node),
    getAttribute sampleParagraph "itunes:key" = Some k /\ k <> EmptyString /\
    In c (containerNodes sampleDocument) /\ getAttribute c "for" = Some k /\
    entryOf (Element "text" [("for", "L1")]
               [Element "span" [("begin", "0"); ("end", "1")] [Text "he"]; Text " llo"])
    = entryOf c.
Proof.
  apply (transliteration_only_from_matching_container sampleDocument sampleParagraph).
  vm_compute. reflexivity.
Defined.

Lemma isSet_lineWord (span : Located) :
  isSet (Word.isBackground (lineWord span)) = underBackground (ancestors span).
Proof.
  unfold lineWord. cbn [Word.isBackground].
  now destruct (underBackground (ancestors span)).
Qed.

(** X4.  A parsed line counts as background vocals only, exactly when its
    paragraph has at least one timed span and every timed span lies under
    an element with the background role; a paragraph without timed spans
    never does. *)
Theorem background_only_line (table : gmap string Translit.t) (p : Node) :
  hasOnlyBackgroundVocals (parseLine table p) = true <->
  querySelectorAll p SelSpanBegin <> [] /\
  forall span, In span (querySelectorAll p SelSpanBegin) ->
               exists a, In a (ancestors span) /\ hasBackgroundRole a = true.
Proof.
  unfold hasOnlyBackgroundVocals, parseLine. cbn [Line.words].
  rewrite andb_true_iff, forallb_forall, length_map. split.
  - intros [Hlen Hall]. split.
    + intros E. rewrite E in Hlen. discriminate.
    + intros span Hin. apply underBackground_true.
      rewrite <- isSet_lineWord. apply Hall. now apply in_map.
  - intros [Hne Hall]. split.
    + destruct (querySelectorAll p SelSpanBegin); [contradiction|reflexivity].
    + intros w Hw. apply in_map_iff in Hw. destruct Hw as (span & <- & Hin).
      rewrite isSet_lineWord. apply underBackground_true. now apply Hall.
Qed.

(** The sample paragraph has a lead word, so it is no background line; a
    paragraph without timed spans is none either. *)
Example background_only_samples :
  hasOnlyBackgroundVocals (parseLine ∅ sampleParagraph) = false /\
  hasOnlyBackgroundVocals (parseLine ∅ (Element "p" [] [Text "la"])) = false /\
  hasOnlyBackgroundVocals
    (parseLine ∅ (Element "p" []
                    [Element "span" [("ttm:role", "x-bg")]
                       [Element "span" [("begin", "1")] [Text "oh"]]])) = true.
Proof. repeat apply conj; vm_compute; reflexivity. Qed.

(** The lead text and the background text of a line. *)
Lemma collectText_children (name : string) (attrs : list (string * string))
      (cs : list Node) (inBackground : bool) (acc : TextAcc) :
  collectText (Element name attrs cs) inBackground acc
  = fold_left (collectChild inBackground) cs acc.
Proof. reflexivity. Qed.

Lemma textContent_children (name : string) (attrs : list (string * string))
      (c : Node) (cs : list Node) :
  textContent (Element name attrs (c :: cs))
  = textContent c +:+ textContent (Element name attrs cs).
Proof. reflexivity. Qed.

Lemma interleave_left_only (d : string) : Interleave d EmptyString d.
Proof. induction d; now constructor. Qed.

Lemma interleave_right_only (d : string) : Interleave EmptyString d d.
Proof. induction d; now constructor. Qed.

Lemma interleave_append_left (a b t d : string) :
  Interleave a b t -> Interleave (a +:+ d) b (t +:+ d).
Proof.
  induction 1 as [|c a b t _ IH|c a b t _ IH].
  - apply interleave_left_only.
  - change (Interleave (String c (a +:+ d)) b (String c (t +:+ d))).
    now constructor.
  - change (Interleave (a +:+ d) (String c b) (String c (t +:+ d))).
    now constructor.
Qed.

Lemma interleave_append_right (a b t d : string) :
  Interleave a b t -> Interleave a (b +:+ d) (t +:+ d).
Proof.
  induction 1 as [|c a b t _ IH|c a b t _ IH].
  - apply interleave_right_only.
  - change (Interleave (String c a) (b +:+ d) (String c (t +:+ d))).
    now constructor.
  - change (Interleave a (String c (b +:+ d)) (String c (t +:+ d))).
    now constructor.
Qed.

Lemma collectChildren_interleave (name : string) (attrs : list (string * string))
      (cs : list Node) :
  Forall collectsInterleaved cs ->
  forall (inBackground : bool) (acc : TextAcc) (t : string),
    forallb hasNoCData cs = true ->
    Interleave (accLead acc) (accBg acc) t ->
    Interleave (accLead (fold_left (collectChild inBackground) cs acc))
               (accBg (fold_left (collectChild inBackground) cs acc))
               (t +:+ textContent (Element name attrs cs)).
Proof.
  induction 1 as [|c cs Hc _ IH]; intros inBackground acc t Hn Hacc.
  - change (textContent (Element name attrs [])) with EmptyString.
    now rewrite append_empty_r.
  - cbn [forallb] in Hn. apply andb_true_iff in Hn. destruct Hn as [Hnc Hncs].
    cbn [fold_left]. rewrite textContent_children, <- append_assoc.
    apply IH; [exact Hncs|]. now apply Hc.
Qed.

Lemma collectChild_interleave (n : Node) : collectsInterleaved n.
Proof.
  induction n as [name a cs IH|d|d|d|tg d] using Node_nested_ind;
    intros inBackground acc t Hn Hacc.
  - cbn [collectChild]. rewrite collectText_children.
    now apply collectChildren_interleave.
  - cbn [collectChild textContent]. destruct inBackground; cbn [accLead accBg].
    + now apply interleave_append_right.
    + now apply interleave_append_left.
  - discriminate.
  - cbn [collectChild textContent]. now rewrite append_empty_r.
  - cbn [collectChild textContent]. now rewrite append_empty_r.
Qed.

(** X5.  Without CDATA sections in a paragraph, the text of its line is a
    merge of the untrimmed lead text and the untrimmed background text:
    every character of the text goes to exactly one of the two, in
    order. *)
Theorem lead_and_background_partition_text (p : Node) :
  hasName "p" p = true -> hasNoCData p = true ->
  let collected :=
    collectText p false {| accLead := EmptyString; accBg := EmptyString |} in
  Interleave (accLead collected) (accBg collected) (textContent p) /\
  forall table,
    Line.text (parseLine table p) = textContent p /\
    Line.leadText (parseLine table p) = trim (accLead collected) /\
    Line.bgText (parseLine table p) = trim (accBg collected).
Proof.
  intros Hp Hn collected. split; [|intros table; repeat split].
  destruct p as [name a cs| | | |]; try discriminate.
  subst collected. rewrite collectText_children.
  apply (collectChildren_interleave name a cs) with (t := EmptyString).
  - apply List.Forall_forall. intros c _. apply collectChild_interleave.
  - exact Hn.
  - constructor.
Qed.

Lemma lead_and_background_partition_text_witness :
  Interleave "He" "(oh)llo" "He(oh)llo".
Proof.
  apply (proj1 (lead_and_background_partition_text
    (Element "p" []
       [ Element "span" [("begin", "0")] [Text "He"];
         Element "span" [("ttm:role", "x-bg")]
           [ Element "span" [("begin", "1.5")] [Text "(oh)"] ];
         Element "span" [("begin", "1"); ("ttm:role", "x-bg")] [Text "llo"] ])
    eq_refl eq_refl)).
Defined.

(** With a CDATA section the text of the line has characters that are in
    neither part. *)
Example cdata_is_in_neither_part :
  let line := parseLine ∅ (Element "p" [] [Text "a"; CDATASection "b"]) in
  Line.text line = "ab"%string /\ Line.leadText line = "a"%string /\
  Line.bgText line = EmptyString.
Proof. repeat apply conj; vm_compute; reflexivity. Qed.

Lemma collectChildren_plain (cs : list Node) :
  Forall (fun n => forall acc,
              hasNoCData n = true ->
              negb (hasBackgroundRole n) && noBackgroundBelow n = true ->
              collectChild false acc n
              = {| accLead := accLead acc +:+ textContent n; accBg := accBg acc |}) cs ->
  forall (name : string) (attrs : list (string * string)) (acc : TextAcc),
    forallb hasNoCData cs = true ->
    forallb (fun c => negb (hasBackgroundRole c) && noBackgroundBelow c) cs = true ->
    fold_left (collectChild false) cs acc
    = {| accLead := accLead acc +:+ textContent (Element name attrs cs);
         accBg := accBg acc |}.
Proof.
  induction 1 as [|c cs Hc _ IH]; intros name attrs acc Hn Hb.
  - change (textContent (Element name attrs [])) with EmptyString.
    rewrite append_empty_r. now destruct acc.
  - cbn [forallb] in Hn, Hb. apply andb_true_iff in Hn, Hb.
    destruct Hn as [Hnc Hncs], Hb as [Hbc Hbcs].
    cbn [fold_left]. rewrite (Hc acc Hnc Hbc), (IH name attrs) by assumption.
    cbn [accLead accBg]. now rewrite textContent_children, append_assoc.
Qed.

Lemma collectChild_plain (n : Node) :
  forall acc,
    hasNoCData n = true ->
    negb (hasBackgroundRole n) && noBackgroundBelow n = true ->
    collectChild false acc n
    = {| accLead := accLead acc +:+ textContent n; accBg := accBg acc |}.
Proof.
  induction n as [name a cs IH|d|d|d|tg d] using Node_nested_ind;
    intros acc Hn Hb.
  - apply andb_true_iff in Hb. destruct Hb as [Hrole Hbelow].
    apply negb_true_iff in Hrole.
    cbn [collectChild]. rewrite Hrole. cbn [orb]. rewrite collectText_children.
    now apply collectChildren_plain.
  - reflexivity.
  - discriminate.
  - cbn [collectChild textContent]. rewrite append_empty_r. now destruct acc.
  - cbn [collectChild textContent]. rewrite append_empty_r. now destruct acc.
Qed.

(** X6.  A paragraph with no CDATA section and no element with the
    background role below it has an empty background text, and its lead
    text is its trimmed text. *)
Theorem plain_paragraph_is_all_lead (table : gmap string Translit.t) (p : Node) :
  hasName "p" p = true -> hasNoCData p = true -> noBackgroundBelow p = true ->
  Line.bgText (parseLine table p) = EmptyString /\
  Line.leadText (parseLine table p) = trim (Line.text (parseLine table p)).
Proof.
  intros Hp Hn Hb. destruct p as [name a cs| | | |]; try discriminate.
  unfold parseLine. cbn [Line.bgText Line.leadText Line.text].
  rewrite collectText_children.
  rewrite (collectChildren_plain cs) with (name := name) (attrs := a).
  - split; reflexivity.
  - apply List.Forall_forall. intros c _. apply collectChild_plain.
  - exact Hn.
  - exact Hb.
Qed.

Lemma plain_paragraph_is_all_lead_witness :
  Line.bgText (parseLine ∅ (Element "p" [] [Text " la "; Element "span" [] [Text "la "]]))
  = EmptyString /\
  Line.leadText (parseLine ∅ (Element "p" [] [Text " la "; Element "span" [] [Text "la "]]))
  = trim (Line.text (parseLine ∅ (Element "p" [] [Text " la "; Element "span" [] [Text "la "]]))).
Proof.
  apply plain_paragraph_is_all_lead; reflexivity.
Defined.

(** ** The parsed view and the timeline *)

Lemma querySelectorAll_spans (p : Node) (span : Located) :
  In span (querySelectorAll p SelSpanBegin) -> In span (querySpans p).
Proof.
  unfold querySelectorAll, querySpans. rewrite !filter_In.
  intros [Hin Hsel]. split; [exact Hin|].
  cbn [selects] in Hsel. now apply andb_true_iff in Hsel.
Qed.

(** X7.  The parsed view of the playground and the timeline read the same
    paragraphs in the same order: the timeline's line has the text of the
    view's line and the times [parseTime] gives for its [begin] and [end]
    strings, and every word of the timeline is a word of the view read the
    same way. *)
Theorem parsed_view_agrees_with_timeline (doc : Document) :
  map (fun v => (parseTime (View.begin v), parseTime (View.end_ v), View.text v))
      (parsedViewLines doc)
  = map (fun l => (Line.begin l, Line.end_ l, Line.text l)) (parseDocument doc) /\
  forall (p : Node) (w : Word.t),
    In p (paragraphs doc) ->
    In w (Line.words (parseLine (transliterationMap doc) p)) ->
    exists v : View.word,
      In v (View.words (viewLine p)) /\
      Word.begin w = parseTime (View.wordBegin v) /\
      Word.end_ w = parseTime (View.wordEnd v) /\
      Word.text w = View.wordText v.
Proof.
  split.
  - unfold parsedViewLines, parseDocument. rewrite !map_map. reflexivity.
  - intros p w _ Hw. cbn [parseLine Line.words] in Hw.
    apply in_map_iff in Hw. destruct Hw as (span & <- & Hin).
    exists (viewWord span). split; [|repeat split].
    cbn [viewLine View.words]. apply in_map. now apply querySelectorAll_spans.
Qed.

Lemma parsed_view_agrees_with_timeline_witness :
  exists v : View.word,
    In v (View.words (viewLine sampleParagraph)) /\
    num 0 = parseTime (View.wordBegin v) /\
    num 1000 = parseTime (View.wordEnd v) /\
    "He"%string = View.wordText v.
Proof.
  apply (proj2 (parsed_view_agrees_with_timeline sampleDocument) sampleParagraph
               {| Word.begin := 0; Word.end_ := 1000; Word.text := "He";
                  Word.isBackground := None |}).
  - left. reflexivity.
  - left. reflexivity.
Defined.

(** ** The invariant of the view *)













Section Invariant.

Variable lines : list Line.t.
Variable T : Q.
Hypothesis HT : totalDuration lines = Fin T.
Hypothesis HT0 : (0 <= T)%Q.























End Invariant.




(** When the wheel zooms out between a move of a drag and its animation
    frame, the frame sets the offset that was clamped for the old zoom:
    the window then ends after the total duration. *)
Example late_frame_leaves_track :
  let s := run hundredSeconds lateFrameSession firstSession in
  zoom (view s) = Fin (6 # 5) /\
  panOffset (view s) = Fin (100000 # 3) /\
  (panOffset (view s) + visibleDuration hundredSeconds (view s)
   >? totalDuration hundredSeconds)%js = true.
Proof. vm_compute. repeat split. Qed.

(** ** Drags and clicks *)

Lemma press_move_release (lines : list Line.t) (s : Session)
      (e0 e : PointerEvent) (rect : DOMRect) :
  (zoom (view s) <=? 1)%js = false ->
  let released := run lines [MouseDown e0; MouseMove rect e; MouseUp] s in
  isDragging (view released) = false /\
  didDrag (view released) = (abs (clientX e - clientX e0) >? 3)%js /\
  pendingFrame released = None /\
  pendingResets released = S (pendingResets s) /\
  zoom (view released) = zoom (view s) /\
  panOffset (view released) = panOffset (view s) /\
  selectedLine (view released) = selectedLine (view s) /\
  scrubPosition (view released) = scrubPosition (view s).
Proof.
  intros Hz. cbn [run fold_left step]. unfold onView, handleMouseDown.
  cbn [view]. rewrite Hz.
  unfold handleMouseMove. cbn [view startDrag isDragging negb dragStartX].
  destruct (abs (clientX e - clientX e0) >? 3)%js;
    unfold handleMouseUp; cbn; repeat split.
Qed.

(** X9.  A press on a zoomed track, a move of more than 3 pixels from the
    press point and a release leave the drag mark set: the click that
    follows is ignored by the track and by every bar, and the release
    has scheduled the timeout that clears the mark. *)
Theorem drag_suppresses_click (lines : list Line.t) (s : Session)
        (e0 e e' : PointerEvent) (rect rect' : DOMRect)
        (index : Z) (line : Line.t) :
  (zoom (view s) <=? 1)%js = false ->
  (abs (clientX e - clientX e0) >? 3)%js = true ->
  let released := run lines [MouseDown e0; MouseMove rect e; MouseUp] s in
  step lines released (TrackClick rect' e') = released /\
  step lines released (BarClick index line) = released /\
  pendingResets released = S (pendingResets s).
Proof.
  intros Hz Hmove released.
  destruct (press_move_release lines s e0 e rect Hz)
    as (_ & Hdid & _ & Hres & _).
  fold released in Hdid, Hres. rewrite Hmove in Hdid.
  repeat apply conj; [| |exact Hres].
  - cbn [step]. unfold onView, handleTimelineClick. rewrite Hdid.
    rewrite !orb_true_r. now destruct released.
  - cbn [step]. unfold onView, barClick. rewrite Hdid. now destruct released.
Qed.

Lemma drag_suppresses_click_witness :
  let released :=
    run hundredSeconds
        [MouseDown (pointerAt 50); MouseMove sampleTrack (pointerAt 20); MouseUp]
        zoomedSession in
  step hundredSeconds released (TrackClick sampleTrack pointerAtHalf) = released /\
  step hundredSeconds released (BarClick 0 (mkLine 0 100000)) = released /\
  pendingResets released = 1%nat.
Proof.
  apply (drag_suppresses_click hundredSeconds zoomedSession
           (pointerAt 50) (pointerAt 20) pointerAtHalf sampleTrack sampleTrack
           0 (mkLine 0 100000)); reflexivity.
Defined.

(** X10.  After a press, a move and a release on a zoomed track, a click
    on a bar selects its line and scrubs to its start in two cases: at
    once when the move stayed within 3 pixels of the press point, and in
    any case once the timeout of the release has run. *)
Theorem click_after_release (lines : list Line.t) (s : Session)
        (e0 e : PointerEvent) (rect : DOMRect) (index : Z) (line : Line.t) :
  (zoom (view s) <=? 1)%js = false ->
  let released := run lines [MouseDown e0; MouseMove rect e; MouseUp] s in
  ((abs (clientX e - clientX e0) >? 3)%js = false ->
   selectedLine (view (step lines released (BarClick index line))) = Some index /\
   scrubPosition (view (step lines released (BarClick index line)))
   = Some (Line.begin line)) /\
  selectedLine (view (run lines [Timeout; BarClick index line] released))
  = Some index /\
  scrubPosition (view (run lines [Timeout; BarClick index line] released))
  = Some (Line.begin line).
Proof.
  intros Hz released.
  destruct (press_move_release lines s e0 e rect Hz)
    as (_ & Hdid & _ & Hres & _).
  fold released in Hdid, Hres. split.
  - intros Hmove. rewrite Hmove in Hdid.
    cbn [step onView view]. unfold barClick. rewrite Hdid. split; reflexivity.
  - cbn [run fold_left step]. unfold timeoutFires. rewrite Hres.
    cbn [onView view]. unfold barClick. cbn [setDidDrag didDrag]. split; reflexivity.
Qed.

Lemma click_after_release_witness :
  let released :=
    run hundredSeconds
        [MouseDown (pointerAt 50); MouseMove sampleTrack (pointerAt 52); MouseUp]
        zoomedSession in
  selectedLine (view (step hundredSeconds released (BarClick 0 (mkLine 0 100000))))
  = Some 0 /\
  scrubPosition (view (step hundredSeconds released (BarClick 0 (mkLine 0 100000))))
  = Some (num 0).
Proof.
  apply (proj1 (click_after_release hundredSeconds zoomedSession
                  (pointerAt 50) (pointerAt 52) sampleTrack 0 (mkLine 0 100000)
                  eq_refl)).
  reflexivity.
Defined.

(** ** The total duration *)

Lemma max_NaN_r (a : number) : max a NaN = NaN.
Proof. now destruct a. Qed.

Lemma fold_max_NaN (xs : list number) : fold_left max xs NaN = NaN.
Proof. induction xs as [|x xs IH]; [reflexivity|exact IH]. Qed.

Lemma fold_max_In_NaN (xs : list number) (a : number) :
  In NaN xs -> fold_left max xs a = NaN.
Proof.
  revert a. induction xs as [|x xs IH]; intros a []; cbn [fold_left].
  - subst x. rewrite max_NaN_r. apply fold_max_NaN.
  - now apply IH.
Qed.

Lemma le_trans (a b c : number) :
  (a <=? b)%js = true -> (b <=? c)%js = true -> (a <=? c)%js = true.
Proof.
  destruct a, b, c; cbn; try congruence.
  rewrite !Qle_bool_iff. apply Qle_trans.
Qed.

Lemma le_refl (a : number) : a <> NaN -> (a <=? a)%js = true.
Proof.
  destruct a; cbn; try congruence. intros _. apply Qle_bool_iff, Qle_refl.
Qed.

Lemma max_cases (a b : number) :
  a <> NaN -> b <> NaN ->
  (max a b = a \/ max a b = b) /\ max a b <> NaN /\
  (a <=? max a b)%js = true /\ (b <=? max a b)%js = true.
Proof.
  intros Ha Hb.
  assert (Hmax : max a b = if lt a b then b else a) by now destruct a, b.
  rewrite Hmax. destruct (lt a b) eqn:E.
  - split; [now right|]. split; [exact Hb|]. split; [|now apply le_refl].
    destruct a, b; cbn in *; try congruence.
    apply negb_true_iff in E. apply Qle_bool_iff.
    apply (proj1 (le_Fin_false _ _)) in E. lra.
  - split; [now left|]. split; [exact Ha|]. split; [now apply le_refl|].
    destruct a, b; cbn in *; try congruence.
    apply negb_false_iff in E. exact E.
Qed.

Lemma fold_max_greatest (xs : list number) (a : number) :
  a <> NaN -> Forall (fun x => x <> NaN) xs ->
  let r := fold_left max xs a in
  (r = a \/ In r xs) /\ r <> NaN /\ (a <=? r)%js = true /\
  (forall x, In x xs -> (x <=? r)%js = true).
Proof.
  revert a. induction xs as [|x xs IH]; intros a Ha Hxs r; subst r;
    cbn [fold_left].
  - split; [now left|]. split; [exact Ha|]. split; [now apply le_refl|].
    intros x [].
  - inversion Hxs as [|? ? Hx Hrest]; subst.
    destruct (max_cases a x Ha Hx) as (Hc & Hn & Hla & Hlx).
    destruct (IH (max a x) Hn Hrest) as (Hr & Hrn & Hlr & Hall).
    split; [|split; [|split]].
    + destruct Hr as [Hr|Hr]; [|right; now right].
      rewrite Hr. destruct Hc as [->| ->]; [now left|right; now left].
    + exact Hrn.
    + now apply (le_trans a (max a x)).
    + intros y [<-|Hy]; [now apply (le_trans x (max a x))|now apply Hall].
Qed.

(** X11.  Over a non-empty list of lines none of whose ends is NaN, the
    total duration is the end of one of the lines and no line ends after
    it. *)
Theorem totalDuration_is_greatest_end (lines : list Line.t) :
  lines <> [] ->
  Forall (fun line => Line.end_ line <> NaN) lines ->
  (exists line, In line lines /\ totalDuration lines = Line.end_ line) /\
  (forall line, In line lines ->
                (Line.end_ line <=? totalDuration lines)%js = true).
Proof.
  intros Hne Hends. unfold totalDuration.
  destruct lines as [|l0 rest]; [congruence|]. cbn [List.length Nat.eqb].
  assert (Hxs : Forall (fun x => x <> NaN) (map Line.end_ (l0 :: rest))).
  { apply List.Forall_forall. intros x Hx. apply in_map_iff in Hx.
    destruct Hx as (l & <- & Hl).
    now apply (proj1 (List.Forall_forall _ _) Hends). }
  destruct (fold_max_greatest (map Line.end_ (l0 :: rest)) NegInf
              ltac:(discriminate) Hxs) as (Hr & _ & _ & Hall).
  fold (maxOf (map Line.end_ (l0 :: rest))) in Hr, Hall. split.
  - assert (Hin : In (maxOf (map Line.end_ (l0 :: rest)))
                     (map Line.end_ (l0 :: rest))).
    { destruct Hr as [Hr|Hr]; [|exact Hr].
      pose proof (Hall (Line.end_ l0) (or_introl eq_refl)) as H0.
      rewrite Hr in H0 |- *.
      assert (E : Line.end_ l0 = NegInf).
      { destruct (Line.end_ l0); cbn in H0; congruence. }
      left. exact E. }
    apply in_map_iff in Hin. destruct Hin as (l & Hl & Hin).
    exists l. split; [exact Hin|now symmetry].
  - intros l Hl. apply Hall. now apply in_map.
Qed.

Lemma totalDuration_is_greatest_end_witness :
  (exists line, In line twoLines /\ totalDuration twoLines = Line.end_ line) /\
  (forall line, In line twoLines ->
                (Line.end_ line <=? totalDuration twoLines)%js = true).
Proof.
  apply (totalDuration_is_greatest_end twoLines).
  - discriminate.
  - repeat constructor; discriminate.
Defined.

Lemma findIndexFrom_all_false {A : Type} (test : A -> bool) (l : list A) (i : Z) :
  (forall x, test x = false) -> findIndexFrom test l i = -1.
Proof.
  intros H. revert i. induction l as [|x l IH]; intros i; cbn; [reflexivity|].
  now rewrite H.
Qed.

(** X12.  When the end of some line is NaN the total duration is NaN, and
    a click on the track that is not part of a drag then sets the scrub
    position to NaN and selects no line, wherever the pointer is. *)
Theorem nan_end_poisons_the_track (lines : list Line.t) (line : Line.t)
        (rect : DOMRect) (e : PointerEvent) (st : State) :
  In line lines -> Line.end_ line = NaN ->
  isDragging st = false -> didDrag st = false ->
  totalDuration lines = NaN /\
  handleTimelineClick lines (Some rect) e st = setScrubPosition NaN st.
Proof.
  intros Hin Hend Hdrag Hdid.
  assert (HT : totalDuration lines = NaN).
  { unfold totalDuration. destruct lines as [|l0 rest]; [destruct Hin|].
    cbn [List.length Nat.eqb]. apply fold_max_In_NaN.
    rewrite <- Hend. now apply in_map. }
  split; [exact HT|].
  unfold handleTimelineClick. rewrite HT, Hdrag, Hdid. cbn [strictEq orb].
  unfold visibleDuration. rewrite HT.
  assert (Hclamp : forall t, max 0 (min NaN t) = NaN) by (intros t; reflexivity).
  rewrite !Hclamp. unfold findIndex.
  rewrite findIndexFrom_all_false; [reflexivity|].
  intros x. unfold ge. now destruct (Line.begin x).
Qed.

Lemma nan_end_poisons_the_track_witness :
  totalDuration [mkLine 0 2000; unparsedEnd] = NaN /\
  handleTimelineClick [mkLine 0 2000; unparsedEnd] (Some sampleTrack)
                      pointerAtHalf initial
  = setScrubPosition NaN initial.
Proof.
  apply (nan_end_poisons_the_track [mkLine 0 2000; unparsedEnd] unparsedEnd);
    try reflexivity.
  right. left. reflexivity.
Defined.

(** ** Positions on the track *)

Lemma Qdiv_pos (x d : Q) : (0 < x)%Q -> (0 < d)%Q -> (0 < x / d)%Q.
Proof.
  intros Hx Hd. apply Qlt_shift_div_l; [exact Hd|]. lra.
Qed.

Lemma Qdiv_mult_cancel (x d : Q) : ~ (d == 0)%Q -> (x == x / d * d)%Q.
Proof. intros Hd. field. exact Hd. Qed.

Lemma Qdiv_pos_bounds (x d : Q) :
  (0 < d)%Q ->
  ((0 <= x / d)%Q <-> (0 <= x)%Q) /\ ((x / d <= 1)%Q <-> (x <= d)%Q).
Proof.
  intros Hd. assert (Hd0 : ~ (d == 0)%Q) by lra.
  pose proof (Qdiv_mult_cancel x d Hd0) as Hx.
  repeat split; intros H.
  - rewrite Hx. apply Qmult_le_0_compat; lra.
  - apply Qle_shift_div_l; [exact Hd|]. lra.
  - assert (H' : (x / d * d <= 1 * d)%Q) by (apply Qmult_le_compat_r; lra).
    lra.
  - apply Qle_shift_div_r; [exact Hd|]. lra.
Qed.

Lemma Qdiv_le_mono (x y d : Q) : (0 < d)%Q -> (x <= y)%Q -> (x / d <= y / d)%Q.
Proof.
  intros Hd Hxy. unfold Qdiv. apply Qmult_le_compat_r; [exact Hxy|].
  apply Qlt_le_weak, Qinv_lt_0_compat, Hd.
Qed.

Section Window.

Variable lines : list Line.t.
Variables T z o : Q.
Variable st : State.
Hypothesis HT : totalDuration lines = Fin T.
Hypothesis HT0 : (0 < T)%Q.
Hypothesis Hz : zoom st = Fin z.
Hypothesis Hz0 : (0 < z)%Q.
Hypothesis Ho : panOffset st = Fin o.

Lemma visibleDuration_pos : visibleDuration lines st = fin (T / z).
Proof. unfold visibleDuration. rewrite HT, Hz. apply div_Fin. lra. Qed.

Lemma timeToPosition_Fin (t : Q) :
  exists p : Q,
    timeToPosition lines st (Fin t) = Fin p /\ (p == (t - o) / (T / z) * 100)%Q.
Proof.
  pose proof (Qdiv_pos T z HT0 Hz0) as Hd.
  unfold timeToPosition. rewrite visibleDuration_pos, Ho.
  cbn [sub]. unfold fin. rewrite div_Fin by (rewrite Qred_correct; lra).
  unfold fin, num, of_Z. cbn [mul]. unfold fin.
  eexists. split; [reflexivity|]. rewrite !Qred_correct. reflexivity.
Qed.

End Window.

(** X13.  In a view of positive zoom over lines of positive total
    duration, [timeToPosition] gives a position that is not negative
    exactly when the time is not before the pan offset, the start of the
    window, and it keeps the order of times. *)
Theorem position_keeps_order_from_window_start
        (lines : list Line.t) (st : State) (T z o t : Q) :
  totalDuration lines = Fin T -> (0 < T)%Q ->
  zoom st = Fin z -> (0 < z)%Q -> panOffset st = Fin o ->
  exists p : Q,
    timeToPosition lines st (Fin t) = Fin p /\
    ((0 <= p)%Q <-> (o <= t)%Q) /\
    (forall t' p' : Q,
        timeToPosition lines st (Fin t') = Fin p' -> (t <= t')%Q -> (p <= p')%Q).
Proof.
  intros HT HT0 Hz Hz0 Ho.
  pose proof (Qdiv_pos T z HT0 Hz0) as Hd.
  destruct (timeToPosition_Fin lines T z o st HT HT0 Hz Hz0 Ho t) as (p & Hp & Ep).
  exists p. split; [exact Hp|].
  destruct (Qdiv_pos_bounds (t - o) (T / z) Hd) as [H0 _]. split.
  - rewrite Ep. split.
    + intros Hlo.
      assert (H : (0 <= (t - o) / (T / z))%Q) by lra. apply H0 in H. lra.
    + intros Hlo.
      assert (Ha : (0 <= (t - o) / (T / z))%Q) by (apply H0; lra). lra.
  - intros t' p' Hp' Hle.
    destruct (timeToPosition_Fin lines T z o st HT HT0 Hz Hz0 Ho t') as (q & Hq & Eq).
    rewrite Hp' in Hq. injection Hq as ->. rewrite Ep, Eq.
    assert (Hm : ((t - o) / (T / z) <= (t' - o) / (T / z))%Q)
      by (apply Qdiv_le_mono; [exact Hd|lra]).
    lra.
Qed.

Lemma position_keeps_order_from_window_start_witness :
  exists p : Q,
    timeToPosition hundredSeconds zoomedFour (Fin 30000) = Fin p /\
    ((0 <= p)%Q <-> (25000 <= 30000)%Q) /\
    (forall t' p' : Q,
        timeToPosition hundredSeconds zoomedFour (Fin t') = Fin p' ->
        (30000 <= t')%Q -> (p <= p')%Q).
Proof.
  apply (position_keeps_order_from_window_start hundredSeconds zoomedFour
           100000%Q 4%Q 25000%Q 30000%Q); reflexivity.
Defined.

(** ** The labels of the time markers *)

Lemma Qfloor_div_Z (a b : Z) :
  0 < b -> Qfloor (inject_Z a / inject_Z b) = a / b.
Proof.
  intros Hb. destruct b as [|p|p]; try lia.
  rewrite <- (Qfloor_comp _ _ (Qmake_Qdiv a p)). reflexivity.
Qed.

Lemma div_of_Z_floor (a b : Z) :
  0 < b -> floor (of_Z a / of_Z b)%js = of_Z (a / b).
Proof.
  intros Hb. unfold of_Z at 1 2. rewrite div_Fin.
  - rewrite floor_fin. now rewrite Qfloor_div_Z.
  - change 0%Q with (inject_Z 0). rewrite inject_Z_injective. lia.
Qed.

Lemma rem_of_Z (a b : Z) :
  0 <= a -> 0 < b -> rem (of_Z a) (of_Z b) = of_Z (a mod b).
Proof.
  intros Ha Hb. unfold of_Z at 1 2. cbn [rem].
  assert (Hb0 : Qeq_bool (inject_Z b) 0 = false).
  { destruct (Qeq_bool (inject_Z b) 0) eqn:E; [|reflexivity].
    apply Qeq_bool_iff in E. change 0%Q with (inject_Z 0) in E.
    rewrite inject_Z_injective in E. lia. }
  rewrite Hb0. apply fin_inject_Z.
  assert (Htr : truncate (inject_Z a / inject_Z b) = a / b).
  { unfold truncate.
    assert (Hq : Qle_bool 0 (inject_Z a / inject_Z b) = true).
    { apply Qle_bool_iff. apply Qle_shift_div_l.
      - change 0%Q with (inject_Z 0). rewrite <- Zlt_Qlt. exact Hb.
      - rewrite Qmult_0_l. change 0%Q with (inject_Z 0). now rewrite <- Zle_Qle. }
    rewrite Hq. now apply Qfloor_div_Z. }
  rewrite Htr. unfold Qminus.
  rewrite <- inject_Z_mult, <- inject_Z_opp, <- inject_Z_plus.
  rewrite inject_Z_injective. rewrite (Z.mod_eq a b) by lia. ring.
Qed.

Lemma markersFrom_kept (lines : list Line.t) (interval bound : number) :
  forall (fuel : nat) (i : number) (ms : list number),
    markersFrom lines fuel interval bound i = Some ms ->
    Forall (fun m => (m >=? 0)%js = true) ms.
Proof.
  induction fuel as [|fuel IH]; intros i ms; cbn [markersFrom];
    destruct (i <=? bound)%js; try discriminate;
    try (intros [= <-]; constructor).
  destruct (markersFrom lines fuel interval bound (i + interval)%js)
    as [rest|] eqn:E; [|discriminate].
  pose proof (IH _ _ E) as Hrest.
  destruct (i >=? 0)%js eqn:E0; cbn [andb].
  - destruct (i <=? totalDuration lines)%js; intros [= <-];
      [constructor; assumption|assumption].
  - intros [= <-]. assumption.
Qed.

Lemma markerInterval_values (lines : list Line.t) (st : State) :
  exists Iz : Z,
    markerInterval lines st = num Iz /\
    (Iz = 10000 \/ Iz = 30000 \/ Iz = 60000).
Proof.
  unfold markerInterval.
  destruct (zoom st >=? 4)%js; [exists 10000; auto|].
  destruct (zoom st >=? 2)%js; [exists 30000; auto|].
  destruct (totalDuration lines <=? 180000)%js;
    [exists 30000|exists 60000]; auto.
Qed.

(** X17.  Every time marker of a view with finite zoom and pan offset is
    labelled exactly: the minutes and the seconds its label prints are
    whole numbers, the seconds are under 60, and together they give back
    the time of the marker. *)
Theorem marker_labels_are_exact
        (lines : list Line.t) (st : State) (T z o : Q)
        (fuel : nat) (ms : list number) (m : number) :
  totalDuration lines = Fin T ->
  zoom st = Fin z -> (0 < z)%Q -> panOffset st = Fin o ->
  timeMarkers lines fuel st = Some ms -> In m ms ->
  exists mins secs : Z,
    markerMinutes m = num mins /\ markerSeconds m = num secs /\
    0 <= mins /\ 0 <= secs < 60 /\
    m = num (60000 * mins + 1000 * secs).
Proof.
  intros HT Hz Hzpos Ho Hms Hin.
  destruct (markerInterval_values lines st) as (Iz & HIz & HIv).
  assert (HI : 0 < Iz) by lia.
  assert (HIq : ~ (inject_Z Iz == 0)%Q).
  { change 0%Q with (inject_Z 0). rewrite inject_Z_injective. lia. }
  set (f := Qfloor (o / inject_Z Iz)).
  unfold timeMarkers in Hms.
  assert (Hstart : (floor (panOffset st / markerInterval lines st)
                    * markerInterval lines st)%js = num (f * Iz)).
  { rewrite HIz, Ho. unfold num, of_Z at 1.
    rewrite div_Fin by exact HIq. rewrite floor_fin. apply of_Z_mul. }
  assert (Hbound : exists B, (panOffset st + visibleDuration lines st
                              + markerInterval lines st)%js = Fin B).
  { unfold visibleDuration.
    rewrite HIz, Ho, HT, Hz, div_Fin by lra. eexists. reflexivity. }
  destruct Hbound as (B & HB).
  cbv zeta in Hms. rewrite HB, Hstart, HIz in Hms.
  pose proof (proj2 (markersFrom_increasing lines B Iz HI fuel f ms Hms)) as Hmul.
  pose proof (markersFrom_kept lines _ _ fuel _ ms Hms) as Hkept.
  destruct (proj1 (List.Forall_forall _ _) Hmul m Hin) as (j & _ & Hm).
  pose proof (proj1 (List.Forall_forall _ _) Hkept m Hin) as Hm0.
  cbv beta in Hm0. rewrite Hm in Hm0. unfold ge, num in Hm0.
  rewrite le_of_Z in Hm0. apply Z.leb_le in Hm0.
  set (a := j * Iz) in *.
  exists (a / 60000), ((a mod 60000) / 1000).
  unfold markerMinutes, markerSeconds. rewrite Hm. unfold num.
  rewrite div_of_Z_floor by lia.
  rewrite rem_of_Z by lia. rewrite div_of_Z_floor by lia.
  repeat apply conj; try reflexivity.
  - apply Z.div_pos; lia.
  - apply Z.div_pos; [apply Z.mod_pos_bound|]; lia.
  - apply Z.div_lt_upper_bound; [lia|]. apply Z.mod_pos_bound. lia.
  - f_equal.
    assert (Hdiv : exists j', a = 10000 * j').
    { unfold a. destruct HIv as [->|[->| ->]];
        [exists j|exists (3 * j)|exists (6 * j)]; ring. }
    destruct Hdiv as (j' & Hj'). rewrite Hj' in *.
    Z.div_mod_to_equations. lia.
Qed.

Lemma marker_labels_are_exact_witness :
  exists mins secs : Z,
    markerMinutes (num 30000) = num mins /\ markerSeconds (num 30000) = num secs /\
    0 <= mins /\ 0 <= secs < 60 /\
    num 30000 = num (60000 * mins + 1000 * secs).
Proof.
  apply (marker_labels_are_exact hundredSeconds zoomedFour 100000%Q 4%Q 25000%Q
           10%nat [num 20000; num 30000; num 40000; num 50000; num 60000]
           (num 30000)); try reflexivity.
  right. left. reflexivity.
Defined.

(** ** The parameters of the playground page *)

Lemma truthy_false (s : string) : Playground.truthy s = false -> s = EmptyString.
Proof.
  unfold Playground.truthy. intros H. apply negb_false_iff in H.
  now apply String.eqb_eq in H.
Qed.

(** X18.  The parameters the playground writes to its address are read
    back by [getInitialParams] as the state they were written from: the
    four fields, empty ones included, and the provider. *)
Theorem address_round_trip (p : Playground.Params) :
  Playground.getInitialParams (Some (Playground.addressParams p)) = p.
Proof.
  destruct p as [s a al d pr].
  unfold Playground.addressParams, Playground.getInitialParams.
  cbn [Playground.song Playground.artist Playground.album Playground.duration
       Playground.provider].
  destruct (Playground.truthy s) eqn:Es;
    destruct (Playground.truthy a) eqn:Ea;
    destruct (Playground.truthy al) eqn:Eal;
    destruct (Playground.truthy d) eqn:Ed;
    destruct pr; cbn;
    rewrite ?Es, ?Ea, ?Eal, ?Ed;
    repeat match goal with
           | H : Playground.truthy _ = false |- _ =>
               apply truthy_false in H; subst
           end;
    reflexivity.
Qed.

(** ** Whole milliseconds *)

Lemma round_whole (a : number) : wholeOrNotFinite (round a).
Proof.
  destruct a as [| | |x]; cbn; try exact I.
  unfold of_Z. cbn. eexists. reflexivity.
Qed.

Lemma parseTime_whole (timeStr : string) : wholeOrNotFinite (parseTime timeStr).
Proof.
  unfold parseTime. destruct (String.eqb timeStr EmptyString).
  - cbn. now exists 0.
  - apply round_whole.
Qed.

Lemma lineWord_whole (span : Located) : wholeWord (lineWord span).
Proof. split; apply parseTime_whole. Qed.

Lemma translitWord_whole (span : Located) : wholeWord (translitWord span).
Proof. split; apply parseTime_whole. Qed.

(** X19.  Every time in the lines [parseTTML] returns is a whole number
    of milliseconds unless it is NaN or infinite: the begin and the end
    of each line, of each of its words, and of each word of its
    transliteration. *)
Theorem parsed_times_are_whole
        (parseFromString : string -> Completion Document) (ttml : string)
        (line : Line.t) :
  In line (parseTTML parseFromString ttml) ->
  wholeOrNotFinite (Line.begin line) /\ wholeOrNotFinite (Line.end_ line) /\
  (forall w, In w (Line.words line) -> wholeWord w) /\
  (forall t w, Line.transliteration line = Some t ->
               In w (Translit.words t) -> wholeWord w).
Proof.
  intros Hin. destruct (parseFromString ttml) as [doc|] eqn:E.
  - rewrite (parseTTML_normal _ _ _ E) in Hin.
    unfold parseDocument in Hin. apply in_map_iff in Hin.
    destruct Hin as (p & <- & _).
    repeat apply conj; try apply parseTime_whole.
    + intros w Hw. cbn [parseLine Line.words] in Hw.
      apply in_map_iff in Hw. destruct Hw as (span & <- & _).
      apply lineWord_whole.
    + intros t w Ht Hw. unfold parseLine in Ht. cbn [Line.transliteration] in Ht.
      destruct (orUndefined (getAttribute p "itunes:key")) as [k|];
        [|discriminate].
      rewrite transliterationMap_lookup in Ht.
      destruct (lastFor k (containerNodes doc)) as [c|]; [|discriminate].
      injection Ht as <-. cbn [entryOf Translit.words] in Hw.
      apply in_map_iff in Hw. destruct Hw as (span & <- & _).
      apply translitWord_whole.
  - rewrite (parseTTML_throw _ _ E) in Hin. destruct Hin.
Qed.

Lemma parsed_times_are_whole_witness :
  wholeOrNotFinite (Line.begin (parseLine (transliterationMap sampleDocument)
                                          sampleParagraph)) /\
  wholeOrNotFinite (Line.end_ (parseLine (transliterationMap sampleDocument)
                                         sampleParagraph)) /\
  (forall w, In w (Line.words (parseLine (transliterationMap sampleDocument)
                                         sampleParagraph)) -> wholeWord w) /\
  (forall t w, Line.transliteration (parseLine (transliterationMap sampleDocument)
                                               sampleParagraph) = Some t ->
               In w (Translit.words t) -> wholeWord w).
Proof.
  apply (parsed_times_are_whole (fun _ => Normal sampleDocument) EmptyString).
  vm_compute. left. reflexivity.
Defined.

(** ** The track at zoom 1 *)



(** ** The wheel at the limits of the zoom *)

Lemma wheel_unchanged_zoom (lines : list Line.t) (rect : DOMRect)
      (e : PointerEvent) (st : State) (T z o f : Q) :
  totalDuration lines = Fin T -> (0 < T)%Q ->
  zoom st = Fin z -> (1 <= z)%Q ->
  panOffset st = Fin o -> (0 <= o)%Q -> (o + T / z <= T)%Q ->
  pointerFraction rect e = Fin f ->
  max 1 (min 20 (zoom st * zoomDelta e)%js) = Fin z ->
  let st' := handleWheel lines (Some rect) e st in
  zoom st' = zoom st /\ exists o' : Q, panOffset st' = Fin o' /\ (o' == o)%Q.
Proof.
  intros HT HT0 Hz Hz1 Ho Ho0 Hwin Hf Hnew st'.
  assert (Hz0 : (0 < z)%Q) by lra.
  assert (Hst : st' = setPanOffset
                        (max 0 (min (totalDuration lines - totalDuration lines / Fin z)%js
                                    ((panOffset st + Fin f * visibleDuration lines st)
                                     - Fin f * (totalDuration lines / Fin z))%js))
                        (setZoom (Fin z) st)).
  { unfold st', handleWheel. fold (pointerFraction rect e). rewrite Hf.
    fold (zoomDelta e). rewrite Hnew. reflexivity. }
  rewrite Hst. cbn [setPanOffset setZoom zoom panOffset]. split; [now rewrite Hz|].
  rewrite (visibleDuration_pos lines T z st HT Hz Hz0), HT, Ho.
  rewrite div_Fin by lra. repeat (cbn [add sub mul]; unfold fin).
  match goal with
  | |- context [max _ (min (Fin ?h) (Fin ?t))] =>
      destruct (clamp_Fin 0 h t) as (c & Hc & _ & Hid)
  end.
  exists c. split; [exact Hc|].
  rewrite Hid; rewrite !Qred_correct; lra.
Qed.

(** X21.  The wheel does not pass the limits of the zoom: turned to zoom
    in at zoom 20 it leaves the zoom at 20, and turned to zoom out at
    zoom 1 it leaves the zoom at 1 and, over lines of positive total
    duration, the pan offset at 0, wherever the pointer is. *)
Theorem wheel_at_zoom_limit_keeps_zoom
        (lines : list Line.t) (rect : DOMRect) (e : PointerEvent) (st : State) :
  (zoom st = 20 -> (deltaY e >? 0)%js = false ->
   zoom (handleWheel lines (Some rect) e st) = 20) /\
  (zoom st = 1 -> (deltaY e >? 0)%js = true ->
   zoom (handleWheel lines (Some rect) e st) = 1 /\
   forall T o f : Q,
     totalDuration lines = Fin T -> (0 < T)%Q ->
     panOffset st = Fin o -> (o == 0)%Q ->
     pointerFraction rect e = Fin f ->
     exists o' : Q,
       panOffset (handleWheel lines (Some rect) e st) = Fin o' /\ (o' == 0)%Q).
Proof.
  split.
  - intros Hz Hy. unfold handleWheel. cbn [zoom setPanOffset setZoom].
    rewrite Hz, Hy. reflexivity.
  - intros Hz Hy. split.
    + unfold handleWheel. cbn [zoom setPanOffset setZoom].
      rewrite Hz, Hy. reflexivity.
    + intros T o f HT HT0 Ho Eo Hf.
      destruct (wheel_unchanged_zoom lines rect e st T 1 o f) as (_ & o' & Ho' & Eo');
        try assumption.
      * discriminate.
      * lra.
      * assert (E : (T / 1 == T)%Q) by field. rewrite E. lra.
      * rewrite Hz. unfold zoomDelta. rewrite Hy. reflexivity.
      * exists o'. split; [exact Ho'|]. lra.
Qed.

Lemma wheel_at_zoom_limit_keeps_zoom_witness :
  zoom (handleWheel hundredSeconds (Some sampleTrack) wheelOut initial) = 1 /\
  exists o' : Q,
    panOffset (handleWheel hundredSeconds (Some sampleTrack) wheelOut initial)
    = Fin o' /\ (o' == 0)%Q.
Proof.
  destruct (proj2 (wheel_at_zoom_limit_keeps_zoom hundredSeconds sampleTrack
                     wheelOut initial) eq_refl eq_refl) as [Hz Hp].
  split; [exact Hz|].
  apply (Hp 100000%Q 0%Q (1 # 2)%Q); reflexivity.
Defined.

(** ** Releasing before the frame *)

(** X22.  A release or a leave cancels the frame of the last move: after
    a press on a zoomed track and a move, a release or a leave that comes
    before the animation frame keeps the pan offset the view had at the
    press, whatever frame runs later; and a leave clears the drag mark at
    once, so the click that follows it is not suppressed. *)
Theorem release_cancels_pending_move
        (lines : list Line.t) (s : Session) (e0 e : PointerEvent) (rect : DOMRect) :
  (zoom (view s) <=? 1)%js = false ->
  panOffset (view (run lines [MouseDown e0; MouseMove rect e; MouseUp; Frame] s))
  = panOffset (view s) /\
  panOffset (view (run lines [MouseDown e0; MouseMove rect e; MouseLeave; Frame] s))
  = panOffset (view s) /\
  didDrag (view (run lines [MouseDown e0; MouseMove rect e; MouseLeave] s)) = false /\
  isDragging (view (run lines [MouseDown e0; MouseMove rect e; MouseLeave] s)) = false.
Proof.
  intros Hz. cbn [run fold_left step]. unfold onView, handleMouseDown.
  cbn [view]. rewrite Hz.
  unfold handleMouseMove. cbn [view startDrag isDragging negb dragStartX].
  destruct (abs (clientX e - clientX e0) >? 3)%js;
    unfold handleMouseUp, handleMouseLeave, animationFrame; cbn;
    repeat split.
Qed.

Lemma release_cancels_pending_move_witness :
  panOffset (view (run hundredSeconds
                       [MouseDown (pointerAt 50); MouseMove sampleTrack (pointerAt 20);
                        MouseUp; Frame] zoomedSession))
  = panOffset (view zoomedSession) /\
  panOffset (view (run hundredSeconds
                       [MouseDown (pointerAt 50); MouseMove sampleTrack (pointerAt 20);
                        MouseLeave; Frame] zoomedSession))
  = panOffset (view zoomedSession) /\
  didDrag (view (run hundredSeconds
                     [MouseDown (pointerAt 50); MouseMove sampleTrack (pointerAt 20);
                      MouseLeave] zoomedSession)) = false /\
  isDragging (view (run hundredSeconds
                        [MouseDown (pointerAt 50); MouseMove sampleTrack (pointerAt 20);
                         MouseLeave] zoomedSession)) = false.
Proof.
  apply (release_cancels_pending_move hundredSeconds zoomedSession
           (pointerAt 50) (pointerAt 20) sampleTrack).
  reflexivity.
Defined.

(** ** Order on binary64 *)

Module DoubleFacts.

Import Double.

Lemma SFcompare_refl (f : spec_float) :
  f <> S754_nan -> SFcompare f f = Some Eq.
Proof.
  destruct f as [s|s| |s m e]; cbn; try congruence; intros _.
  - now destruct s.
  - rewrite Z.compare_refl, Pos.compare_cont_refl. now destruct s.
Qed.

Lemma SFcompare_antisym (f g : spec_float) :
  SFcompare g f = option_map CompOpp (SFcompare f g).
Proof.
  destruct f as [s|s| |s m e], g as [s'|s'| |s' m' e']; cbn;
    try reflexivity; try (now destruct s); try (now destruct s');
    try (now destruct s, s').
  rewrite (Z.compare_antisym e' e).
  assert (H : Pos.compare_cont Eq m m' = CompOpp (Pos.compare_cont Eq m' m))
    by (rewrite Pos.compare_cont_antisym; reflexivity).
  rewrite H.
  destruct s, s'; destruct (e' ?= e); cbn [CompOpp option_map];
    rewrite ?CompOpp_involutive; reflexivity.
Qed.

Lemma is_nan_spec (x : float) :
  PrimFloat.is_nan x = true <-> Prim2SF x = S754_nan.
Proof.
  unfold PrimFloat.is_nan. rewrite FloatAxioms.eqb_spec. unfold SFeqb. split.
  - intros H. destruct (Prim2SF x) eqn:E; try reflexivity;
      rewrite SFcompare_refl in H by discriminate; discriminate.
  - intros ->. reflexivity.
Qed.

Lemma is_nan_false (x : float) :
  PrimFloat.is_nan x = false <-> Prim2SF x <> S754_nan.
Proof.
  rewrite <- is_nan_spec. destruct (PrimFloat.is_nan x); split; congruence.
Qed.

Lemma compare_defined (x y : float) :
  PrimFloat.is_nan x = false -> PrimFloat.is_nan y = false ->
  exists c, SFcompare (Prim2SF x) (Prim2SF y) = Some c.
Proof.
  rewrite !is_nan_false. intros Hx Hy.
  destruct (Prim2SF x) as [s|s| |s m e], (Prim2SF y) as [s'|s'| |s' m' e'];
    try congruence; cbn; eexists; reflexivity.
Qed.

Lemma compare_not_nan (x y : float) (c : comparison) :
  SFcompare (Prim2SF x) (Prim2SF y) = Some c ->
  PrimFloat.is_nan x = false /\ PrimFloat.is_nan y = false.
Proof.
  rewrite !is_nan_false. intros H. split; intros E; rewrite E in H.
  - discriminate.
  - now destruct (Prim2SF x).
Qed.

Lemma ltb_leb (x y : float) : PrimFloat.ltb x y = true -> PrimFloat.leb x y = true.
Proof.
  rewrite FloatAxioms.ltb_spec, FloatAxioms.leb_spec. unfold SFltb, SFleb.
  destruct (SFcompare _ _) as [[]|]; congruence.
Qed.

Lemma leb_not_nan (x y : float) :
  PrimFloat.leb x y = true ->
  PrimFloat.is_nan x = false /\ PrimFloat.is_nan y = false.
Proof.
  rewrite FloatAxioms.leb_spec. unfold SFleb.
  destruct (SFcompare _ _) as [c|] eqn:E; [|discriminate].
  intros _. exact (compare_not_nan x y c E).
Qed.

Lemma leb_refl (x : float) : PrimFloat.is_nan x = false -> PrimFloat.leb x x = true.
Proof.
  rewrite is_nan_false, FloatAxioms.leb_spec. intros H. unfold SFleb.
  now rewrite SFcompare_refl.
Qed.

Lemma ltb_false_leb (x y : float) :
  PrimFloat.is_nan x = false -> PrimFloat.is_nan y = false ->
  PrimFloat.ltb x y = false -> PrimFloat.leb y x = true.
Proof.
  intros Hx Hy. rewrite FloatAxioms.ltb_spec, FloatAxioms.leb_spec. unfold SFltb, SFleb.
  rewrite (SFcompare_antisym (Prim2SF x) (Prim2SF y)).
  destruct (compare_defined x y Hx Hy) as (c & ->).
  destruct c; cbn; congruence.
Qed.

Lemma ltb_not_eqb (x y : float) :
  PrimFloat.ltb x y = true -> PrimFloat.eqb y x = false.
Proof.
  rewrite FloatAxioms.ltb_spec, FloatAxioms.eqb_spec. unfold SFltb, SFeqb.
  rewrite (SFcompare_antisym (Prim2SF x) (Prim2SF y)).
  destruct (SFcompare _ _) as [[]|]; cbn; congruence.
Qed.

(** [Math.min] and [Math.max] return one of their arguments, on the right
    side of the other. *)
Lemma double_min_cases (a b : float) :
  PrimFloat.is_nan a = false -> PrimFloat.is_nan b = false ->
  (min a b = a \/ min a b = b) /\
  PrimFloat.leb (min a b) a = true /\ PrimFloat.leb (min a b) b = true.
Proof.
  intros Ha Hb. unfold min. rewrite Ha, Hb. cbn [orb].
  destruct (PrimFloat.ltb b a) eqn:E1.
  - split; [now right|]. split; [now apply ltb_leb|now apply leb_refl].
  - destruct (PrimFloat.ltb a b) eqn:E2.
    + split; [now left|]. split; [now apply leb_refl|now apply ltb_leb].
    + destruct (isNegativeZero b).
      * split; [now right|].
        split; [now apply ltb_false_leb|now apply leb_refl].
      * split; [now left|].
        split; [now apply leb_refl|now apply ltb_false_leb].
Qed.

Lemma double_max_cases (a b : float) :
  PrimFloat.is_nan a = false -> PrimFloat.is_nan b = false ->
  (max a b = a \/ max a b = b) /\
  PrimFloat.leb a (max a b) = true /\ PrimFloat.leb b (max a b) = true.
Proof.
  intros Ha Hb. unfold max. rewrite Ha, Hb. cbn [orb].
  destruct (PrimFloat.ltb a b) eqn:E1.
  - split; [now right|]. split; [now apply ltb_leb|now apply leb_refl].
  - destruct (PrimFloat.ltb b a) eqn:E2.
    + split; [now left|]. split; [now apply leb_refl|now apply ltb_leb].
    + destruct (isNegativeZero a).
      * split; [now right|].
        split; [now apply ltb_false_leb|now apply leb_refl].
      * split; [now left|].
        split; [now apply leb_refl|now apply ltb_false_leb].
Qed.

(** A clamp of a number between two bounds in order lies between them. *)
Lemma double_clamp_range (lo hi t : float) :
  PrimFloat.is_nan t = false -> PrimFloat.leb lo hi = true ->
  PrimFloat.leb lo (max lo (min hi t)) = true /\
  PrimFloat.leb (max lo (min hi t)) hi = true.
Proof.
  intros Ht Hb. destruct (leb_not_nan lo hi Hb) as [Hlo Hhi].
  destruct (double_min_cases hi t Hhi Ht) as (Hm & Hmhi & _).
  assert (Hmn : PrimFloat.is_nan (min hi t) = false)
    by (destruct Hm as [-> | ->]; assumption).
  destruct (double_max_cases lo (min hi t) Hlo Hmn) as (Hr & Hlor & _).
  split; [exact Hlor|].
  destruct Hr as [-> | ->]; assumption.
Qed.

(** Whole numbers below 2^53 are doubles. *)

Lemma digits2_pos_iter (m d : positive) :
  digits2_pos (Pos.iter xO m d) = (digits2_pos m + d)%positive.
Proof.
  induction d as [|d IH] using Pos.peano_ind.
  - cbn. lia.
  - rewrite Pos.iter_succ. cbn [digits2_pos]. rewrite IH. lia.
Qed.

Lemma digits2_pos_bound (m : positive) : Zpos m < 2 ^ Zpos (digits2_pos m).
Proof.
  induction m as [m IH|m IH|]; cbn [digits2_pos].
  - rewrite Pos2Z.inj_succ, Z.pow_succ_r by lia. lia.
  - rewrite Pos2Z.inj_succ, Z.pow_succ_r by lia. lia.
  - reflexivity.
Qed.

Lemma digits2_pos_le (m : positive) (n : Z) :
  0 <= n -> Zpos m < 2 ^ n -> Zpos (digits2_pos m) <= n.
Proof.
  revert n. induction m as [m IH|m IH|]; intros n Hn H; cbn [digits2_pos].
  - destruct (Z.eq_dec n 0) as [->|]; [cbn in H; lia|].
    replace n with (Z.succ (n - 1)) in H by lia.
    rewrite Z.pow_succ_r in H by lia.
    rewrite Pos2Z.inj_succ. specialize (IH (n - 1)). lia.
  - destruct (Z.eq_dec n 0) as [->|]; [cbn in H; lia|].
    replace n with (Z.succ (n - 1)) in H by lia.
    rewrite Z.pow_succ_r in H by lia.
    rewrite Pos2Z.inj_succ. specialize (IH (n - 1)). lia.
  - destruct (Z.eq_dec n 0) as [->|]; [cbn in H; lia|]. lia.
Qed.

Lemma fexp_normal (d e : Z) :
  d = 53 -> -1074 <= e -> fexp prec emax (d + e) = e.
Proof. intros -> He. unfold fexp, SpecFloat.emin, prec, emax. lia. Qed.

Lemma binary_round_aux_exact (s : bool) (m : positive) (e : Z) :
  Zpos (digits2_pos m) = 53 -> -1074 <= e <= 971 ->
  binary_round_aux prec emax s (Zpos m) e loc_Exact = S754_finite s m e.
Proof.
  intros Hd He. unfold binary_round_aux, shr_fexp.
  cbn [Zdigits2 shr_record_of_loc].
  rewrite (fexp_normal _ e Hd) by lia. rewrite Z.sub_diag.
  cbn [shr shr_m loc_of_shr_record round_nearest_even Zdigits2 shr_record_of_loc].
  rewrite (fexp_normal _ e Hd) by lia. rewrite Z.sub_diag.
  cbn [shr shr_m].
  replace (e <=? emax - prec) with true; [reflexivity|].
  symmetry. apply Z.leb_le. unfold emax, prec. lia.
Qed.

Lemma binary_round_whole (s : bool) (m : positive) :
  Zpos m < 2 ^ 53 -> binary_round prec emax s m 0 = DoubleSpec.wholeSF s m.
Proof.
  intros Hm. pose proof (digits2_pos_le m 53 ltac:(lia) Hm) as Hd.
  unfold binary_round, DoubleSpec.wholeSF. rewrite Z.add_0_r.
  assert (Hf : fexp prec emax (Zpos (digits2_pos m)) = Zpos (digits2_pos m) - 53).
  { unfold fexp, SpecFloat.emin, prec, emax. lia. }
  rewrite Hf. unfold shl_align. rewrite Z.sub_0_r.
  destruct (Z.eq_dec (Zpos (digits2_pos m)) 53) as [E|E].
  - rewrite E. change (53 - 53) with 0. cbv iota.
    apply binary_round_aux_exact; [exact E|lia].
  - assert (Hneg : exists d, Zpos (digits2_pos m) - 53 = Zneg d /\
                             53 - Zpos (digits2_pos m) = Zpos d).
    { exists (Z.to_pos (53 - Zpos (digits2_pos m))). split.
      - rewrite <- Pos2Z.opp_pos, Z2Pos.id by lia. lia.
      - rewrite Z2Pos.id by lia. reflexivity. }
    destruct Hneg as (d & Hn & Hp). rewrite Hn, Hp.
    apply binary_round_aux_exact.
    + rewrite digits2_pos_iter. lia.
    + lia.
Qed.

Lemma wholeSF_valid (s : bool) (m : positive) :
  Zpos m < 2 ^ 53 ->
  SpecFloat.valid_binary prec emax (DoubleSpec.wholeSF s m) = true.
Proof.
  intros Hm. pose proof (digits2_pos_le m 53 ltac:(lia) Hm) as Hd.
  unfold DoubleSpec.wholeSF.
  destruct (53 - Zpos (digits2_pos m)) as [|d|d] eqn:E;
    cbn [SpecFloat.valid_binary];
    unfold bounded, canonical_mantissa; apply andb_true_iff; split;
    try (apply Z.leb_le; unfold emax, prec; lia); apply Z.eqb_eq.
  - apply fexp_normal; lia.
  - rewrite digits2_pos_iter. apply fexp_normal; lia.
  - lia.
Qed.

Lemma iter_xO_pow (m d : positive) :
  Zpos (Pos.iter xO m d) = Zpos m * 2 ^ Zpos d.
Proof.
  induction d as [|d IH] using Pos.peano_ind.
  - cbn. lia.
  - rewrite Pos.iter_succ, Pos2Z.inj_succ, Z.pow_succ_r by lia.
    rewrite Pos2Z.inj_xO, IH. ring.
Qed.

Lemma Qpower_2_neg (d : positive) :
  (Qpower 2 (Zneg d) == / inject_Z (2 ^ Zpos d))%Q /\
  (0 < inject_Z (2 ^ Zpos d))%Q /\ 2 <= 2 ^ Zpos d.
Proof.
  assert (Hp : (inject_Z (2 ^ Zpos d) == Qpower 2 (Zpos d))%Q)
    by (apply Zpower_Qpower; lia).
  assert (H2 : 2 <= 2 ^ Zpos d).
  { change 2 with (2 ^ 1) at 1. apply Z.pow_le_mono_r; lia. }
  split; [|split; [|exact H2]].
  - rewrite Hp. reflexivity.
  - change 0%Q with (inject_Z 0). rewrite <- Zlt_Qlt. lia.
Qed.

Lemma toQ_spec (x : float) (f : spec_float) :
  Prim2SF x = f ->
  toQ x = match f with
          | S754_zero _ => Some 0%Q
          | S754_finite s m e =>
              let v := (inject_Z (Zpos m) * Qpower 2 e)%Q in
              Some (if s then Qopp v else v)
          | _ => None
          end.
Proof. intros <-. reflexivity. Qed.

Lemma toQ_whole (s : bool) (m : positive) (x : float) :
  Prim2SF x = DoubleSpec.wholeSF s m ->
  exists q, toQ x = Some q /\
            (q == inject_Z (if s then Zneg m else Zpos m))%Q.
Proof.
  intros Hx. rewrite (toQ_spec x _ Hx).
  assert (Hs : inject_Z (Zneg m) = (- inject_Z (Zpos m))%Q)
    by (change (Zneg m) with (- Zpos m)%Z; apply inject_Z_opp).
  unfold DoubleSpec.wholeSF. destruct (53 - Zpos (digits2_pos m)) as [|d|d];
    cbv zeta; eexists; (split; [reflexivity|]); destruct s; rewrite ?Hs.
  1,2,5,6: change (Qpower 2 0) with 1%Q; ring.
  all: rewrite iter_xO_pow, inject_Z_mult;
    destruct (Qpower_2_neg d) as (Hn & Hpos & _);
    rewrite Hn; field; lra.
Qed.

(** The double of a whole number below 2^53 stands for that number. *)
Lemma toQ_of_Z (z : Z) :
  Z.abs z < 2 ^ 53 ->
  exists q, toQ (of_Z z) = Some q /\ (q == inject_Z z)%Q.
Proof.
  intros Hz. destruct z as [|m|m].
  - exists 0%Q. split; reflexivity.
  - apply (toQ_whole false m). unfold of_Z. cbn [binary_normalize].
    rewrite binary_round_whole by exact Hz.
    apply Prim2SF_SF2Prim, wholeSF_valid, Hz.
  - apply (toQ_whole true m). unfold of_Z. cbn [binary_normalize].
    rewrite binary_round_whole by exact Hz.
    apply Prim2SF_SF2Prim, wholeSF_valid, Hz.
Qed.

Lemma finite_mantissa_bound (x : float) (s : bool) (m : positive) (e : Z) :
  Prim2SF x = S754_finite s m e -> Zpos m < 2 ^ 53.
Proof.
  intros E. pose proof (Prim2SF_valid x) as Hv. rewrite E in Hv.
  cbn [SpecFloat.valid_binary] in Hv. unfold bounded in Hv.
  apply andb_true_iff in Hv. destruct Hv as [Hc _].
  unfold canonical_mantissa in Hc. apply Z.eqb_eq in Hc.
  unfold fexp, SpecFloat.emin, prec, emax in Hc.
  pose proof (digits2_pos_bound m) as Hb.
  assert (Hd : Zpos (digits2_pos m) <= 53) by lia.
  apply Z.lt_le_trans with (2 ^ Zpos (digits2_pos m)); [exact Hb|].
  apply Z.pow_le_mono_r; lia.
Qed.

(** [Math.round] gives the whole number nearest to its argument, the
    upper one at a tie. *)
Lemma round_nearest (p : float) (x : Q) :
  toQ p = Some x ->
  exists (z : Z) (q : Q),
    toQ (round p) = Some q /\ (q == inject_Z z)%Q /\
    (inject_Z z - (1 # 2) <= x)%Q /\ (x < inject_Z z + (1 # 2))%Q.
Proof.
  intros Hx. unfold round.
  destruct (Prim2SF p) as [s|s| |s m e] eqn:E;
    rewrite (toQ_spec p _ E) in Hx; try discriminate.
  - injection Hx as <-. exists 0, 0%Q. rewrite (toQ_spec p _ E).
    split; [reflexivity|]. split; [reflexivity|].
    change (inject_Z 0) with 0%Q. split; lra.
  - cbv zeta in Hx. injection Hx as Hx.
    pose proof (finite_mantissa_bound p s m e E) as Hm.
    destruct (Z.leb_spec 0 e) as [He|He].
    + exists (if s then - (Zpos m * 2 ^ e) else Zpos m * 2 ^ e), x.
      rewrite (toQ_spec p _ E). cbv zeta. rewrite Hx.
      assert (Hp : (inject_Z (2 ^ e) == Qpower 2 e)%Q)
        by (apply Zpower_Qpower; lia).
      assert (Hv : (x == inject_Z (if s then - (Zpos m * 2 ^ e) else Zpos m * 2 ^ e))%Q).
      { rewrite <- Hx. destruct s.
        - rewrite inject_Z_opp, inject_Z_mult, Hp. reflexivity.
        - rewrite inject_Z_mult, Hp. reflexivity. }
      split; [reflexivity|]. split; [exact Hv|]. rewrite <- Hv. split; lra.
    + rewrite (toQ_spec p _ E). cbv zeta. rewrite Hx.
      set (r := Qfloor (x + (1 # 2))).
      pose proof (Qfloor_le (x + (1 # 2))) as Hlo.
      pose proof (Qlt_floor (x + (1 # 2))) as Hhi.
      fold r in Hlo, Hhi. rewrite inject_Z_plus in Hhi.
      change (inject_Z 1) with 1%Q in Hhi.
      destruct (Z.eqb_spec r 0) as [Hr|Hr].
      * exists 0, 0%Q. rewrite Hr in Hlo, Hhi.
        change (inject_Z 0) with 0%Q in *.
        split; [now destruct s|]. split; [reflexivity|]. split; lra.
      * assert (Hmag : (- inject_Z (2 ^ 52) < x)%Q /\ (x < inject_Z (2 ^ 52))%Q).
        { destruct e as [|e|d]; try lia.
          destruct (Qpower_2_neg d) as (Hn & Hpos & H2).
          assert (Hv : (inject_Z (Zpos m) * Qpower 2 (Zneg d)
                        < inject_Z (2 ^ 52))%Q).
          { rewrite Hn. apply Qlt_shift_div_r; [exact Hpos|].
            rewrite <- inject_Z_mult, <- Zlt_Qlt.
            apply Z.lt_le_trans with (2 ^ 52 * 2); [lia|].
            apply Z.mul_le_mono_nonneg_l; lia. }
          assert (Hv0 : (0 <= inject_Z (Zpos m) * Qpower 2 (Zneg d))%Q).
          { rewrite Hn. apply Qmult_le_0_compat.
            - change 0%Q with (inject_Z 0). rewrite <- Zle_Qle. lia.
            - apply Qlt_le_weak, Qinv_lt_0_compat, Hpos. }
          assert (H52 : (0 < inject_Z (2 ^ 52))%Q) by reflexivity.
          rewrite <- Hx. destruct s; split; lra. }
        assert (Hrb : Z.abs r < 2 ^ 53).
        { destruct Hmag as [Hm1 Hm2].
          assert (H1 : (inject_Z r < inject_Z (2 ^ 52 + 1))%Q).
          { rewrite inject_Z_plus. change (inject_Z 1) with 1%Q. lra. }
          assert (H2 : (inject_Z (- 2 ^ 52 - 1) < inject_Z r)%Q).
          { unfold Z.sub. rewrite inject_Z_plus, inject_Z_opp.
            change (inject_Z (- (1))) with (- (1))%Q. lra. }
          rewrite <- Zlt_Qlt in H1, H2. lia. }
        destruct (toQ_of_Z r Hrb) as (q & Hq & Eq).
        exists r, q. split; [exact Hq|]. split; [exact Eq|]. split; lra.
Qed.

End DoubleFacts.

Import DoubleFacts.

(** ** The click, over binary64 *)

Lemma double_click_ignored (lines : list Double.Span)
      (track : option Double.DOMRect) (e : Double.PointerEvent)
      (st : Double.State) :
  PrimFloat.eqb (Double.totalDuration lines) 0 = true \/
  Double.isDragging st = true \/ Double.didDrag st = true ->
  Double.handleTimelineClick lines track e st = st.
Proof.
  intros H. unfold Double.handleTimelineClick.
  destruct track as [rect|]; [|reflexivity].
  destruct H as [-> | [-> | ->]]; cbn [orb]; rewrite ?orb_true_r; reflexivity.
Qed.

Lemma double_click_accepted (lines : list Double.Span) (rect : Double.DOMRect)
      (e : Double.PointerEvent) (st : Double.State) :
  PrimFloat.ltb 0 (Double.totalDuration lines) = true ->
  Double.isDragging st = false -> Double.didDrag st = false ->
  Double.handleTimelineClick lines (Some rect) e st =
    let clampedTime :=
      Double.max 0 (Double.min (Double.totalDuration lines)
                      (DoubleSpec.positionToTime lines st
                         (DoubleSpec.pointerFraction rect e))) in
    let lineIndex := findIndex (DoubleSpec.containsTime clampedTime) lines in
    if negb (lineIndex =? -1)
    then Double.setSelectedLine lineIndex (Double.setScrubPosition clampedTime st)
    else Double.setScrubPosition clampedTime st.
Proof.
  intros Ht Hd Hdd. unfold Double.handleTimelineClick.
  rewrite (ltb_not_eqb _ _ Ht), Hd, Hdd. reflexivity.
Qed.

(** C5.  A click on the track, when the document has a positive duration
    and no drag is under way, maps the pointer's fraction to a time,
    clamps it to [0, totalDuration], stores the clamped time as the scrub
    position, and selects the first line in document order whose range
    holds that time; with no such line the selection stays.  The time is
    the double the handler computes.  On the two lines [0, 2000] and
    [2000, 5000] at zoom 1 a click at one half selects line 1 and scrubs
    to 2500.  A click is ignored while a drag is under way, after a drag,
    and when the duration is 0. *)
Theorem click_scrubs_and_selects :
  (forall (lines : list Double.Span) (rect : Double.DOMRect)
          (e : Double.PointerEvent) (st : Double.State),
      PrimFloat.ltb 0 (Double.totalDuration lines) = true ->
      Double.isDragging st = false -> Double.didDrag st = false ->
      let time :=
        DoubleSpec.positionToTime lines st (DoubleSpec.pointerFraction rect e) in
      let clamped := Double.max 0 (Double.min (Double.totalDuration lines) time) in
      let st' := Double.handleTimelineClick lines (Some rect) e st in
      Double.scrubPosition st' = Some clamped /\
      (PrimFloat.is_nan time = false ->
       PrimFloat.leb 0 clamped = true /\
       PrimFloat.leb clamped (Double.totalDuration lines) = true) /\
      (forall (i : nat) (line : Double.Span),
          nth_error lines i = Some line ->
          DoubleSpec.containsTime clamped line = true ->
          (forall j other, (j < i)%nat -> nth_error lines j = Some other ->
                           DoubleSpec.containsTime clamped other = false) ->
          Double.selectedLine st' = Some (Z.of_nat i)) /\
      ((forall line, In line lines -> DoubleSpec.containsTime clamped line = false) ->
       Double.selectedLine st' = Double.selectedLine st) /\
      Double.zoom st' = Double.zoom st /\
      Double.panOffset st' = Double.panOffset st /\
      Double.isDragging st' = false /\ Double.didDrag st' = false) /\
  (forall (rect : Double.DOMRect) (e : Double.PointerEvent),
      DoubleSpec.pointerFraction rect e = 0.5%float ->
      let st' := Double.handleTimelineClick twoSpans (Some rect) e Double.initial in
      Double.selectedLine st' = Some 1 /\
      Double.scrubPosition st' = Some 2500%float) /\
  (forall (lines : list Double.Span) (track : option Double.DOMRect)
          (e : Double.PointerEvent) (st : Double.State),
      PrimFloat.eqb (Double.totalDuration lines) 0 = true \/
      Double.isDragging st = true \/ Double.didDrag st = true ->
      Double.handleTimelineClick lines track e st = st).
Proof.
  split; [|split].
  - intros lines rect e st Ht Hd Hdd time clamped st'.
    assert (Hst' : st' =
              let lineIndex := findIndex (DoubleSpec.containsTime clamped) lines in
              if negb (lineIndex =? -1)
              then Double.setSelectedLine lineIndex
                     (Double.setScrubPosition clamped st)
              else Double.setScrubPosition clamped st)
      by (apply double_click_accepted; assumption).
    cbv zeta in Hst'.
    split; [|split; [|split; [|split]]].
    + rewrite Hst'. now destruct (negb _).
    + intros Hnan. apply double_clamp_range; [exact Hnan|now apply ltb_leb].
    + intros i line Hi Hc Hbefore. rewrite Hst'. unfold findIndex.
      rewrite (findIndexFrom_first _ _ 0 i line Hi Hc Hbefore).
      replace (negb (0 + Z.of_nat i =? -1)) with true
        by (symmetry; apply negb_true_iff, Z.eqb_neq; lia).
      cbn. f_equal.
    + intros Hnone. rewrite Hst'. unfold findIndex.
      rewrite (findIndexFrom_none _ _ 0 Hnone). reflexivity.
    + rewrite Hst'. destruct (negb _); cbn; auto.
  - intros rect e Hf st'. subst st'.
    rewrite double_click_accepted by reflexivity. rewrite Hf.
    vm_compute. split; reflexivity.
  - apply double_click_ignored.
Qed.

Lemma click_scrubs_and_selects_witness :
  Double.selectedLine
    (Double.handleTimelineClick twoSpans (Some track100) (pointer 50 0)
                                Double.initial)
  = Some 1.
Proof.
  destruct (proj1 click_scrubs_and_selects twoSpans track100 (pointer 50 0)
                  Double.initial eq_refl eq_refl eq_refl) as (_ & _ & Hfirst & _).
  apply (Hfirst 1%nat (span 2000 5000)).
  - reflexivity.
  - reflexivity.
  - intros [|[|j]] other Hj Hn; [|lia|lia].
    injection Hn as <-. reflexivity.
Defined.

(** The time of a click is the double the handler computes: at 7 pixels
    of 100 over the lines [0, 210] and [210, 3000] it is
    210.00000000000003, past the end of the first line, and the second
    line is selected. *)
Example click_time_is_rounded :
  let st' :=
    Double.handleTimelineClick [span 0 210; span 210 3000] (Some track100)
                               (pointer 7 0) Double.initial in
  Double.scrubPosition st' = Some 0x1.a400000000001p+7%float /\
  Double.selectedLine st' = Some 1.
Proof. vm_compute. split; reflexivity. Qed.

(** ** The wheel, over binary64 *)




(** ** [parseTime], over binary64 *)

(** C1.  [parseTime] follows the time-parsing rule: wherever the rule
    gives a number of seconds (one, two or three parts around the colons)
    the function returns the double product of that number and 1000,
    rounded by [Math.round]: when the product is finite the result is the
    whole number nearest to it, the upper one at a tie.  The empty string
    gives 0, and the four values the specification pins are the ones
    computed. *)
Theorem parseTime_follows_split_rule :
  (forall (timeStr : string) (seconds : float),
      DoubleSpec.specSeconds timeStr = Some seconds ->
      Double.parseTime timeStr = Double.round (seconds * 1000)%float /\
      (forall x : Q,
          Double.toQ (seconds * 1000)%float = Some x ->
          exists (z : Z) (q : Q),
            Double.toQ (Double.parseTime timeStr) = Some q /\
            (q == inject_Z z)%Q /\
            (inject_Z z - (1 # 2) <= x)%Q /\ (x < inject_Z z + (1 # 2))%Q)) /\
  Double.parseTime EmptyString = 0%float /\
  Double.parseTime "1:02:03.5" = 3723500%float /\
  Double.parseTime "2:03.25" = 123250%float /\
  Double.parseTime "5.5" = 5500%float.
Proof.
  split; [|repeat split; vm_compute; reflexivity].
  intros timeStr seconds Hspec.
  assert (Hv : Double.parseTime timeStr = Double.round (seconds * 1000)%float).
  { unfold DoubleSpec.specSeconds, Double.parseTime in *.
    destruct (String.eqb timeStr EmptyString); [discriminate|].
    destruct (split ":" timeStr) as [|a [|b [|c [|d rest]]]];
      cbn in *; congruence. }
  split; [exact Hv|].
  intros x Hx. rewrite Hv. now apply round_nearest.
Qed.

Lemma parseTime_follows_split_rule_witness :
  Double.parseTime "0:07.5" = Double.round (7.5 * 1000)%float /\
  exists (x : Q) (z : Z) (q : Q),
    Double.toQ (7.5 * 1000)%float = Some x /\ (x == 7500)%Q /\
    Double.toQ (Double.parseTime "0:07.5") = Some q /\
    (q == inject_Z z)%Q /\
    (inject_Z z - (1 # 2) <= x)%Q /\ (x < inject_Z z + (1 # 2))%Q.
Proof.
  destruct (proj1 parseTime_follows_split_rule "0:07.5"%string 7.5%float)
    as [Hv Hn].
  - vm_compute. reflexivity.
  - split; [exact Hv|].
    assert (Hx : exists x, Double.toQ (7.5 * 1000)%float = Some x /\
                           (x == 7500)%Q).
    { eexists. split; vm_compute; reflexivity. }
    destruct Hx as (x & Hx & Ex).
    destruct (Hn x Hx) as (z & q & Hq & Eq & Hb).
    exists x, z, q. repeat apply conj; try assumption; apply Hb.
Defined.

(** The product is a double: 2.0155 seconds give 2015.4999999999998, which
    rounds to 2015, and half a millisecond rounds up. *)
Example parseTime_rounds_the_double_product :
  Double.parseTime "2.0155" = 2015%float /\
  Double.parseTime "0.0005" = 1%float /\
  Double.parseTime "abc" = PrimFloat.nan.
Proof. vm_compute. repeat split. Qed.

(** The times [parseTTML] stores are these doubles. *)
Example parsed_spans_are_doubles :
  Double.documentSpans
    (rooted "tt" []
       [Element "p" [("begin", "2.0155"); ("end", "0:03.5")] [Text "la"];
        Element "p" [("begin", "1:00")] []])
  = [span 2015 3500; span 60000 0].
Proof. vm_compute. reflexivity. Qed.

(** ** The time markers, over binary64 *)

Section DoubleMarkers.

Variable lines : list Double.Span.
Variables interval bound : float.

Lemma markersFrom_candidates :
  forall (n fuel : nat) (i : float),
    (forall k, (k < n)%nat ->
               PrimFloat.leb (DoubleSpec.candidateFrom interval i k) bound = true) ->
    PrimFloat.leb (DoubleSpec.candidateFrom interval i n) bound = false ->
    (n <= fuel)%nat ->
    Double.markersFrom lines fuel interval bound i
    = Some (List.filter (DoubleSpec.withinDuration lines)
              (map (DoubleSpec.candidateFrom interval i) (seq 0 n))).
Proof.
  induction n as [|n IH]; intros fuel i Hin Hout Hfuel.
  - cbn [DoubleSpec.candidateFrom] in Hout.
    destruct fuel; cbn [Double.markersFrom]; rewrite Hout; reflexivity.
  - destruct fuel as [|fuel]; [lia|].
    cbn [Double.markersFrom].
    pose proof (Hin 0%nat ltac:(lia)) as H0.
    cbn [DoubleSpec.candidateFrom] in H0. rewrite H0.
    rewrite (IH fuel (i + interval)%float); [| |exact Hout|lia].
    + assert (Hseq : map (DoubleSpec.candidateFrom interval i) (seq 0 (S n))
                     = i :: map (DoubleSpec.candidateFrom interval (i + interval)%float)
                              (seq 0 n)).
      { cbn [seq map]. f_equal. rewrite <- seq_shift, map_map. reflexivity. }
      rewrite Hseq. cbn [List.filter]. reflexivity.
    + intros k Hk. apply (Hin (S k)). lia.
Qed.

Lemma markersFrom_ends :
  forall (fuel : nat) (i : float) (ms : list float),
    Double.markersFrom lines fuel interval bound i = Some ms ->
    exists n : nat,
      (n <= fuel)%nat /\
      (forall k, (k < n)%nat ->
                 PrimFloat.leb (DoubleSpec.candidateFrom interval i k) bound = true) /\
      PrimFloat.leb (DoubleSpec.candidateFrom interval i n) bound = false.
Proof.
  induction fuel as [|fuel IH]; intros i ms; cbn [Double.markersFrom];
    destruct (PrimFloat.leb i bound) eqn:E; try discriminate.
  - intros _. exists 0%nat. split; [lia|]. split; [intros k Hk; lia|exact E].
  - destruct (Double.markersFrom lines fuel interval bound (i + interval)%float)
      as [rest|] eqn:Er; [|discriminate].
    intros _. destruct (IH _ _ Er) as (n & Hn & Hin & Hout).
    exists (S n). split; [lia|]. split; [|exact Hout].
    intros [|k] Hk; [exact E|]. apply Hin. lia.
  - intros _. exists 0%nat. split; [lia|]. split; [intros k Hk; lia|exact E].
Qed.

End DoubleMarkers.

(** C9, as the code has it.  The interval between markers is 10 s when
    [zoom >= 4], else 30 s when [zoom >= 2], else 30 s when the duration
    is at most 180 s, else 60 s.  The loop visits the candidates
    [floor(panOffset / interval) * interval], that plus the interval, and
    so on, each sum being the double the code computes, and stops at the
    first candidate that is not at most
    [panOffset + visibleDuration + interval]: when the candidate of round
    [n] is the first such one, the markers are, in that order, the
    candidates of the rounds before [n] that lie in [0, totalDuration],
    each drawn at its [timeToPosition]; and the loop ends in no other
    way. *)
Theorem time_markers_are_candidates_within_duration :
  (forall (lines : list Double.Span) (st : Double.State),
      Double.markerInterval lines st =
        if PrimFloat.leb 4 (Double.zoom st) then 10000%float
        else if PrimFloat.leb 2 (Double.zoom st) then 30000%float
        else if PrimFloat.leb (Double.totalDuration lines) 180000 then 30000%float
        else 60000%float) /\
  (forall (lines : list Double.Span) (st : Double.State) (n fuel : nat),
      (forall k, (k < n)%nat ->
                 PrimFloat.leb (DoubleSpec.candidate lines st k)
                               (DoubleSpec.loopBound lines st) = true) ->
      PrimFloat.leb (DoubleSpec.candidate lines st n)
                    (DoubleSpec.loopBound lines st) = false ->
      (n <= fuel)%nat ->
      let ms := List.filter (DoubleSpec.withinDuration lines)
                  (map (DoubleSpec.candidate lines st) (seq 0 n)) in
      Double.timeMarkers lines fuel st = Some ms /\
      Double.markerPositions lines fuel st
      = Some (map (Double.timeToPosition lines st) ms)) /\
  (forall (lines : list Double.Span) (st : Double.State) (fuel : nat)
          (ms : list float),
      Double.timeMarkers lines fuel st = Some ms ->
      exists n : nat,
        (n <= fuel)%nat /\
        (forall k, (k < n)%nat ->
                   PrimFloat.leb (DoubleSpec.candidate lines st k)
                                 (DoubleSpec.loopBound lines st) = true) /\
        PrimFloat.leb (DoubleSpec.candidate lines st n)
                      (DoubleSpec.loopBound lines st) = false).
Proof.
  split; [reflexivity|]. split.
  - intros lines st n fuel Hin Hout Hfuel ms.
    assert (Hms : Double.timeMarkers lines fuel st = Some ms).
    { unfold Double.timeMarkers.
      apply (markersFrom_candidates lines _ _ n fuel _ Hin Hout Hfuel). }
    split; [exact Hms|]. unfold Double.markerPositions. now rewrite Hms.
  - intros lines st fuel ms Hms. unfold Double.timeMarkers in Hms.
    exact (markersFrom_ends lines _ _ fuel _ ms Hms).
Qed.

Lemma time_markers_are_candidates_within_duration_witness :
  Double.timeMarkers oneSpan 10 zoomedFourTimes
  = Some (List.filter (DoubleSpec.withinDuration oneSpan)
            (map (DoubleSpec.candidate oneSpan zoomedFourTimes) (seq 0 5))) /\
  Double.markerPositions oneSpan 10 zoomedFourTimes
  = Some (map (Double.timeToPosition oneSpan zoomedFourTimes)
            (List.filter (DoubleSpec.withinDuration oneSpan)
               (map (DoubleSpec.candidate oneSpan zoomedFourTimes) (seq 0 5)))).
Proof.
  apply (proj1 (proj2 time_markers_are_candidates_within_duration)
               oneSpan zoomedFourTimes 5%nat 10%nat).
  - intros k Hk.
    destruct k as [|[|[|[|[|k]]]]]; try lia; vm_compute; reflexivity.
  - vm_compute. reflexivity.
  - lia.
Defined.

(** The claim of C9 fails on the markers.  At zoom 1 over a hundred
    seconds the window is the whole document: the multiple 120000 that
    trails the window is among the markers of the sentence but is not
    emitted, as it exceeds the duration.  At zoom 4 with the window
    starting at 25000 the multiple 20000 before the window is emitted. *)
Lemma markers_differ_from_window_rule :
  Double.timeMarkers oneSpan 10 Double.initial
  = Some [0; 30000; 60000; 90000]%float /\
  DoubleSpec.specMarker oneSpan Double.initial 120000 = true /\
  Double.timeMarkers oneSpan 10 zoomedFourTimes
  = Some [20000; 30000; 40000; 50000; 60000]%float /\
  DoubleSpec.specMarker oneSpan zoomedFourTimes 20000 = false.
Proof. repeat apply conj; vm_compute; reflexivity. Qed.

(** The bound of the loop is a double: over 300 seconds at zoom 2.8125
    with the window starting at 103333.33333333331 the sum
    [panOffset + visibleDuration + interval] rounds to 240000, and 240000
    is emitted. *)
Example marker_bound_is_rounded :
  let st := Double.setPanOffset 103333.33333333331
              (Double.setZoom 2.8125 Double.initial) in
  DoubleSpec.loopBound [span 0 300000] st = 240000%float /\
  Double.timeMarkers [span 0 300000] 10 st
  = Some [90000; 120000; 150000; 180000; 210000; 240000]%float.
Proof. vm_compute. split; reflexivity. Qed.
